(** * Maitri: the deepfake analyzer screen and its service module

    A shallow embedding of [deepfakeService] (services/deepfakeService.js)
    and of the handlers of [DeepfakeAnalyzerScreen]
    (src/app/deepfake-analyzer.jsx).

    JavaScript [async] functions are embedded as programs of a small free
    monad [prog]: a program performs synchronous actions (React state
    setters, [console.error], [Alert.alert], [setTimeout]), suspends at the
    [await] of a platform call, returns or throws.  Two interpreters give
    them meaning: [interp] runs one program to completion against an oracle
    for the platform, and [advance] runs a program up to its next [await],
    which is what the event loop does with several handlers in flight. *)

From Stdlib Require Import String Ascii List Arith NArith Bool.
From Stdlib Require Import DecimalString.
Import ListNotations.
Local Open Scope string_scope.
Local Open Scope list_scope.
Set Warnings "-register-all".

(** ** JavaScript values *)

(** A decoded JSON document.  A number is kept as the numeral JavaScript
    prints for it (["7"], ["97.5"], ["1e+21"]; ["0"] for both zeros): all the
    code does with a number is test it and print it. *)
Inductive json : Type :=
| JNull
| JBool (b : bool)
| JNum (numeral : string)
| JStr (s : string)
| JArr (items : list json)
| JObj (fields : list (string * json)).

(** The result of a property read or of [||]: a value or [undefined]. *)
Definition jsval : Type := option json.
Definition undefined : jsval := None.

Inductive js_error : Type :=
| Error (msg : string)
| TypeError (msg : string)
| SyntaxError (msg : string).

(** [error.message] *)
Definition message (e : js_error) : string :=
  match e with
  | Error m | TypeError m | SyntaxError m => m
  end.

(** How a promise settles, and how a synchronous expression completes. *)
Inductive outcome (A : Type) : Type :=
| Fulfilled (a : A)
| Rejected (e : js_error).
Arguments Fulfilled {A} a.
Arguments Rejected {A} e.

Definition truthy_string (s : string) : bool :=
  match s with
  | EmptyString => false
  | String _ _ => true
  end.

(** ToBoolean *)
Definition truthy (v : jsval) : bool :=
  match v with
  | None => false
  | Some JNull => false
  | Some (JBool b) => b
  | Some (JNum n) => negb (n =? "0")
  | Some (JStr s) => truthy_string s
  | Some (JArr _) => true
  | Some (JObj _) => true
  end.

Definition string_of_N (n : N) : string :=
  NilZero.string_of_uint (N.to_uint n).

(** ToString, as the [Error] constructor and template literals apply it. *)
Fixpoint ToString (v : json) : string :=
  match v with
  | JNull => "null"
  | JBool true => "true"
  | JBool false => "false"
  | JNum n => n
  | JStr s => s
  | JArr items =>
      (fix join (l : list json) : string :=
         match l with
         | [] => ""
         | x :: rest =>
             let elem := match x with JNull => "" | _ => ToString x end in
             match rest with
             | [] => elem
             | _ :: _ => (elem ++ "," ++ join rest)%string
             end
         end) items
  | JObj _ => "[object Object]"
  end.

Fixpoint lookup_field (name : string) (fields : list (string * json)) : jsval :=
  match fields with
  | [] => undefined
  | (k, v) :: rest => if String.eqb k name then Some v else lookup_field name rest
  end.

(** [TypeError] raised by a property read on [null]; the wording is the
    engine's (Hermes). *)
Definition cannot_read (name : string) : js_error :=
  TypeError ("Cannot read property '" ++ name ++ "' of null")%string.

(** [v.name] for a decoded JSON value [v] and a name that no prototype
    defines ([status], [detail]): the own field of an object, [undefined]
    on booleans, numbers, strings and arrays, a [TypeError] on [null]. *)
Definition get_prop (v : json) (name : string) : outcome jsval :=
  match v with
  | JNull => Rejected (cannot_read name)
  | JObj fields => Fulfilled (lookup_field name fields)
  | JBool _ | JNum _ | JStr _ | JArr _ => Fulfilled undefined
  end.

(** [a || b] *)
Definition or_else (a b : jsval) : jsval := if truthy a then a else b.

(** [s || d] on strings *)
Definition or_string (s d : string) : string := if truthy_string s then s else d.

(** [new Error(v)] *)
Definition new_Error (v : jsval) : js_error :=
  match v with
  | None => Error ""
  | Some j => Error (ToString j)
  end.

(** [hay.includes(needle)] *)
Fixpoint includes (needle hay : string) : bool :=
  String.prefix needle hay ||
  match hay with
  | EmptyString => false
  | String _ rest => includes needle rest
  end.

(** ** Platform data *)

(** An asset of expo-image-picker, the spec's [ImageRef]. *)
Record ImageRef : Type := mkImageRef {
  uri : string;
  width : option N;
  height : option N;
  mimeType : option string
}.

Record PermissionResponse : Type := mkPermission {
  permission_status : string
}.

(** [assets] is [null] when the picker was cancelled. *)
Record ImagePickerResult : Type := mkPickerResult {
  canceled : bool;
  assets : option (list ImageRef)
}.

(** The argument of [fetch].  [body] holds the value handed to
    [JSON.stringify]; the wire encoding is the transport's. *)
Record Request : Type := mkRequest {
  url : string;
  method : string;
  headers : list (string * string);
  body : option json
}.

(** A fetch [Response]: [decoded] is what [response.json()] settles to,
    [None] when the body is not JSON. *)
Record Response : Type := mkResponse {
  status : N;
  decoded : option json
}.

(** [response.ok] *)
Definition ok (r : Response) : bool :=
  (200 <=? status r)%N && (status r <=? 299)%N.

(** [response.json()] *)
Definition Response_json (r : Response) : outcome json :=
  match decoded r with
  | Some v => Fulfilled v
  | None => Rejected (SyntaxError "JSON Parse error")
  end.

(** [result.assets[0]] *)
Definition assets_0 (result : ImagePickerResult) : outcome (option ImageRef) :=
  match assets result with
  | None => Rejected (TypeError "Cannot read property '0' of null")
  | Some [] => Fulfilled None
  | Some (a :: _) => Fulfilled (Some a)
  end.

(** ** Effects *)

(** The platform calls the code awaits.  Their option arguments (picker
    settings, the base64 encoding, [idempotent]) are constants of the source
    and are left out. *)
Inductive call : Type :=
| requestMediaLibraryPermissionsAsync
| requestCameraPermissionsAsync
| launchImageLibraryAsync
| launchCameraAsync
| readAsStringAsync (uri : string)
| deleteAsync (uri : string)
| fetch (req : Request).

Definition reply (c : call) : Type :=
  match c with
  | requestMediaLibraryPermissionsAsync => PermissionResponse
  | requestCameraPermissionsAsync => PermissionResponse
  | launchImageLibraryAsync => ImagePickerResult
  | launchCameraAsync => ImagePickerResult
  | readAsStringAsync _ => string
  | deleteAsync _ => unit
  | fetch _ => Response
  end.

(** The closures the screen hands to the platform, by their place in the
    source, with the [selectedImage] binding they capture:
    [autoDelete] is the [setTimeout] callback of [handleAnalyze],
    [clearPressed] the [onPress] of the Clear button of [handleClear]. *)
Inductive closure : Type :=
| autoDelete (selectedImage : ImageRef)
| clearPressed (selectedImage : option ImageRef).

Record AlertButton : Type := mkButton {
  text : string;
  style : option string;
  onPress : option closure
}.

(** Synchronous actions. [spawn_deleteImage u] is the call
    [deepfakeService.deleteImage(u)] whose promise is dropped. *)
Inductive action : Type :=
| setSelectedImage (v : option ImageRef)
| setIsAnalyzing (b : bool)
| setAnalysisResult (v : json)
| setApiAvailable (b : bool)
| console_error (label : string) (e : js_error)
| Alert_alert (title msg : string) (buttons : list AlertButton)
| setTimeout (cb : closure) (ms : N)
| spawn_deleteImage (u : string).

(** ** Programs *)

Inductive prog (A : Type) : Type :=
| Ret (a : A)
| Throw (e : js_error)
| Act (a : action) (k : prog A)
| Await (c : call) (k : outcome (reply c) -> prog A).
Arguments Ret {A} a.
Arguments Throw {A} e.
Arguments Act {A} a k.
Arguments Await {A} c k.

Fixpoint bind {A B : Type} (p : prog A) (f : A -> prog B) : prog B :=
  match p with
  | Ret a => f a
  | Throw e => Throw e
  | Act a k => Act a (bind k f)
  | Await c k => Await c (fun r => bind (k r) f)
  end.

(** [try { p } catch (error) { h error }] *)
Fixpoint try_catch {A : Type} (p : prog A) (h : js_error -> prog A) : prog A :=
  match p with
  | Ret a => Ret a
  | Throw e => h e
  | Act a k => Act a (try_catch k h)
  | Await c k => Await c (fun r => try_catch (k r) h)
  end.

(** [try { p } finally { fin }] *)
Fixpoint try_finally {A : Type} (p : prog A) (fin : prog unit) : prog A :=
  match p with
  | Ret a => bind fin (fun _ => Ret a)
  | Throw e => bind fin (fun _ => Throw e)
  | Act a k => Act a (try_finally k fin)
  | Await c k => Await c (fun r => try_finally (k r) fin)
  end.

Definition act (a : action) : prog unit := Act a (Ret tt).

(** Completion of a synchronous expression, or of a settled promise. *)
Definition settle {A : Type} (o : outcome A) : prog A :=
  match o with
  | Fulfilled a => Ret a
  | Rejected e => Throw e
  end.

(** [await c] *)
Definition await (c : call) : prog (reply c) := Await c settle.

Declare Scope prog_scope.
Delimit Scope prog_scope with prog.
Notation "x <- p ;; q" := (bind p (fun x => q))
  (at level 100, p at next level, right associativity) : prog_scope.
Notation "p ;; q" := (bind p (fun _ => q))
  (at level 100, right associativity) : prog_scope.
Local Open Scope prog_scope.

(** ** services/deepfakeService.js *)

Section Service.

(** [process.env.EXPO_PUBLIC_API_URL] *)
Variable EXPO_PUBLIC_API_URL : option string.

Definition API_BASE_URL : string :=
  match EXPO_PUBLIC_API_URL with
  | Some u => or_string u "http://localhost:8001"
  | None => "http://localhost:8001"
  end.

Definition pickImage : prog (option ImageRef) :=
  try_catch
    (perm <- await requestMediaLibraryPermissionsAsync ;;
     if negb (permission_status perm =? "granted") then
       Throw (Error "Sorry, we need camera roll permissions to analyze images.")
     else
       result <- await launchImageLibraryAsync ;;
       if canceled result then Ret None
       else
         first <- settle (assets_0 result) ;;
         match first with
         | Some asset => Ret (Some asset)
         | None => Ret None
         end)
    (fun error =>
       act (console_error "Error picking image:" error) ;;
       Throw error).

Definition captureImage : prog (option ImageRef) :=
  try_catch
    (perm <- await requestCameraPermissionsAsync ;;
     if negb (permission_status perm =? "granted") then
       Throw (Error "Sorry, we need camera permissions to capture images.")
     else
       result <- await launchCameraAsync ;;
       if canceled result then Ret None
       else
         first <- settle (assets_0 result) ;;
         match first with
         | Some asset => Ret (Some asset)
         | None => Ret None
         end)
    (fun error =>
       act (console_error "Error capturing image:" error) ;;
       Throw error).

Definition convertToBase64 (uri : string) : prog string :=
  try_catch
    (base64 <- await (readAsStringAsync uri) ;;
     Ret base64)
    (fun error =>
       act (console_error "Error converting to base64:" error) ;;
       Throw error).

Definition analyze_request (base64Image : string) : Request :=
  {| url := (API_BASE_URL ++ "/api/analyze-deepfake")%string;
     method := "POST";
     headers := [("Content-Type", "application/json")];
     body := Some (JObj [("image_base64", JStr base64Image);
                         ("mime_type", JStr "image/jpeg")]) |}.

Definition analyzeImage (imageUri : string) : prog json :=
  try_catch
    (base64Image <- convertToBase64 imageUri ;;
     response <- await (fetch (analyze_request base64Image)) ;;
     if negb (ok response) then
       let errorData :=
         match Response_json response with
         | Fulfilled v => v
         | Rejected _ => JObj []
         end in
       detail <- settle (get_prop errorData "detail") ;;
       Throw (new_Error
                (or_else detail
                   (Some (JStr ("Analysis failed: " ++ string_of_N (status response))%string))))
     else
       result <- settle (Response_json response) ;;
       Ret result)
    (fun error =>
       act (console_error "Error analyzing image:" error) ;;
       Throw error).

Definition deleteImage (uri : string) : prog unit :=
  try_catch
    (if truthy_string uri && String.prefix "file://" uri then
       await (deleteAsync uri) ;; Ret tt
     else Ret tt)
    (fun error =>
       act (console_error "Error deleting image:" error) ;;
       Ret tt).

Definition health_request : Request :=
  {| url := (API_BASE_URL ++ "/api/health")%string;
     method := "GET";
     headers := [];
     body := None |}.

Definition checkHealth : prog bool :=
  try_catch
    (response <- await (fetch health_request) ;;
     if negb (ok response) then Ret false
     else
       data <- settle (Response_json response) ;;
       st <- settle (get_prop data "status") ;;
       Ret (match st with
            | Some (JStr s) => s =? "healthy"
            | _ => false
            end))
    (fun error =>
       act (console_error "Health check failed:" error) ;;
       Ret false).

End Service.

(** ** src/app/deepfake-analyzer.jsx *)

(** The four [useState] cells of [DeepfakeAnalyzerScreen]. *)
Record ui_state : Type := mkUi {
  selectedImage : option ImageRef;
  isAnalyzing : bool;
  analysisResult : json;
  apiAvailable : bool
}.

(** The state of the first render. *)
Definition initial_ui : ui_state :=
  {| selectedImage := None; isAnalyzing := false;
     analysisResult := JNull; apiAvailable := true |}.

Section Screen.

Variable EXPO_PUBLIC_API_URL : option string.

(** A handler is a closure of one render: it reads that render's
    [selectedImage], whatever the state has become when it resumes. *)

Definition handlePickImage : prog unit :=
  try_catch
    (image <- pickImage ;;
     match image with
     | Some img =>
         act (setSelectedImage (Some img)) ;;
         act (setAnalysisResult JNull)
     | None => Ret tt
     end)
    (fun error =>
       act (Alert_alert "Error" (or_string (message error) "Failed to pick image") [])).

Definition handleCaptureImage : prog unit :=
  try_catch
    (image <- captureImage ;;
     match image with
     | Some img =>
         act (setSelectedImage (Some img)) ;;
         act (setAnalysisResult JNull)
     | None => Ret tt
     end)
    (fun error =>
       act (Alert_alert "Error" (or_string (message error) "Failed to capture image") [])).

Definition OK_button : AlertButton :=
  {| text := "OK"; style := None; onPress := None |}.

Definition handleAnalyze (selectedImage : option ImageRef) : prog unit :=
  match selectedImage with
  | None =>
      act (Alert_alert "No Image" "Please select or capture an image first" [])
  | Some img =>
      act (setIsAnalyzing true) ;;
      act (setAnalysisResult JNull) ;;
      try_finally
        (try_catch
           (isHealthy <- checkHealth EXPO_PUBLIC_API_URL ;;
            act (setApiAvailable isHealthy) ;;
            if negb isHealthy then
              act (Alert_alert "Service Unavailable"
                     "The deepfake detection service is currently unavailable. Please try again later."
                     [OK_button]) ;;
              act (setIsAnalyzing false)
            else
              result <- analyzeImage EXPO_PUBLIC_API_URL (uri img) ;;
              act (setAnalysisResult result) ;;
              act (setTimeout (autoDelete img) 5000))
           (fun error =>
              act (console_error "Analysis error:" error) ;;
              act (Alert_alert "Analysis Failed"
                     (or_string (message error) "Failed to analyze image. Please try again.")
                     [OK_button])))
        (act (setIsAnalyzing false))
  end.

Definition handleClear (selectedImage : option ImageRef) : prog unit :=
  act (Alert_alert "Clear Analysis"
         "Are you sure you want to clear the current analysis?"
         [ {| text := "Cancel"; style := Some "cancel"; onPress := None |};
           {| text := "Clear"; style := Some "destructive";
              onPress := Some (clearPressed selectedImage) |} ]).

End Screen.

(** The bodies of the closures. *)
Definition closure_body (cb : closure) : prog unit :=
  match cb with
  | autoDelete selectedImage =>
      act (spawn_deleteImage (uri selectedImage))
  | clearPressed selectedImage =>
      match selectedImage with
      | Some img => act (spawn_deleteImage (uri img))
      | None => Ret tt
      end ;;
      act (setSelectedImage None) ;;
      act (setAnalysisResult JNull)
  end.

(** The [selectedImage] a closure was created with. *)
Definition captured (cb : closure) : option ImageRef :=
  match cb with
  | autoDelete img => Some img
  | clearPressed sel => sel
  end.

(** What the render shows below the image: [analysisResult && !isAnalyzing],
    inside the branch taken when [selectedImage] is set. *)
Definition displayed (s : ui_state) : option json :=
  match selectedImage s with
  | None => None
  | Some _ =>
      if truthy (Some (analysisResult s)) && negb (isAnalyzing s)
      then Some (analysisResult s) else None
  end.

(** ** Running programs *)

(** What the outside can observe: platform calls and the actions that are
    not state setters, in order. *)
Inductive event : Type :=
| Called (c : call)
| Did (a : action).

(** [shown_for] is ghost state: the [selectedImage] binding of the handler
    that last wrote [analysisResult], that is, for a result written by
    [handleAnalyze], the image the result was computed from. *)
Record world : Type := mkWorld {
  screen : ui_state;
  shown_for : option ImageRef;
  log : list event
}.

Definition initial_world : world :=
  {| screen := initial_ui; shown_for := None; log := [] |}.

Definition set_screen (f : ui_state -> ui_state) (w : world) : world :=
  {| screen := f (screen w); shown_for := shown_for w; log := log w |}.

Definition emit (e : event) (w : world) : world :=
  {| screen := screen w; shown_for := shown_for w; log := log w ++ [e] |}.

(** One synchronous action of a handler whose render had [selectedImage = self]. *)
Definition apply_action (self : option ImageRef) (a : action) (w : world) : world :=
  match a with
  | setSelectedImage v =>
      set_screen (fun s => {| selectedImage := v; isAnalyzing := isAnalyzing s;
                              analysisResult := analysisResult s;
                              apiAvailable := apiAvailable s |}) w
  | setIsAnalyzing b =>
      set_screen (fun s => {| selectedImage := selectedImage s; isAnalyzing := b;
                              analysisResult := analysisResult s;
                              apiAvailable := apiAvailable s |}) w
  | setAnalysisResult v =>
      {| screen := {| selectedImage := selectedImage (screen w);
                      isAnalyzing := isAnalyzing (screen w);
                      analysisResult := v;
                      apiAvailable := apiAvailable (screen w) |};
         shown_for := self;
         log := log w |}
  | setApiAvailable b =>
      set_screen (fun s => {| selectedImage := selectedImage s;
                              isAnalyzing := isAnalyzing s;
                              analysisResult := analysisResult s;
                              apiAvailable := b |}) w
  | console_error _ _ | Alert_alert _ _ _ | setTimeout _ _ | spawn_deleteImage _ =>
      emit (Did a) w
  end.

(** How the platform settles each call. *)
Definition replies : Type := forall c : call, outcome (reply c).

(** The platform: how each call settles, given what has happened so far. *)
Definition platform : Type := list event -> replies.

(** Run a program to completion.  A call settles as the platform decides
    from the events before it.  [spawned u] is what the dropped promise of
    [deleteImage(u)] does to the world. *)
Fixpoint interp {A : Type} (spawned : string -> world -> world)
    (self : option ImageRef) (env : platform) (p : prog A) (w : world)
  : outcome A * world :=
  match p with
  | Ret a => (Fulfilled a, w)
  | Throw e => (Rejected e, w)
  | Act a k =>
      let w1 := apply_action self a w in
      let w2 := match a with
                | spawn_deleteImage u => spawned u w1
                | _ => w1
                end in
      interp spawned self env k w2
  | Await c k => interp spawned self env (k (env (log w) c)) (emit (Called c) w)
  end.

(** A program run to completion by a handler whose render had
    [selectedImage = self]; a [deleteImage] it spawns runs where it is
    called ([deleteImage] itself spawns nothing). *)
Definition run {A : Type} (self : option ImageRef) (env : platform) (p : prog A) (w : world)
  : outcome A * world :=
  interp (fun u w1 => snd (interp (fun _ w2 => w2) None env (deleteImage u) w1))
         self env p w.

(** A service function called on its own. *)
Definition call_service {A : Type} (env : platform) (p : prog A) (w : world)
  : outcome A * world :=
  run None env p w.

(** The events a run added. *)
Definition new_events (w w' : world) : list event :=
  skipn (length (log w)) (log w').

(** ** The screen, one handler at a time *)

(** The buttons of the alert on screen: those of the last [Alert.alert]. *)
Definition last_alert (l : list event) : list AlertButton :=
  fold_left (fun acc e => match e with
                          | Did (Alert_alert _ _ buttons) => buttons
                          | _ => acc
                          end) l [].

Definition run_closure (env : platform) (cb : closure) (w : world) : world :=
  snd (run (captured cb) env (closure_body cb) w).

(** The user presses the button [label] of the alert. *)
Definition press_alert_button (env : platform) (label : string) (w : world) : world :=
  match find (fun b => text b =? label) (last_alert (log w)) with
  | Some b =>
      match onPress b with
      | Some cb => run_closure env cb w
      | None => w
      end
  | None => w
  end.

Inductive user_action : Type :=
| PressUpload
| PressCapture
| PressAnalyze
| PressClear
| PressAlertButton (label : string)
| TimerFires (cb : closure).

(** One user action, handled to completion: the handler is the one of the
    current render, so it closes over the current [selectedImage]. *)
Definition do_action (cfg : option string) (env : platform) (a : user_action) (w : world)
  : world :=
  let sel := selectedImage (screen w) in
  match a with
  | PressUpload => snd (run sel env handlePickImage w)
  | PressCapture => snd (run sel env handleCaptureImage w)
  | PressAnalyze => snd (run sel env (handleAnalyze cfg sel) w)
  | PressClear => snd (run sel env (handleClear sel) w)
  | PressAlertButton label => press_alert_button env label w
  | TimerFires cb => run_closure env cb w
  end.

Definition session (cfg : option string) (env : platform) (acts : list user_action)
    (w : world) : world :=
  fold_left (fun w a => do_action cfg env a w) acts w.

(** A result on display was computed from the image on display. *)
Definition consistent (w : world) : Prop :=
  forall r, displayed (screen w) = Some r -> shown_for w = selectedImage (screen w).

(** ** The screen, handlers in flight *)

(** A handler suspended at an [await] (or about to start), with the
    [selectedImage] of its render. *)
Record task : Type := mkTask {
  self : option ImageRef;
  code : prog unit
}.

(** Run a program up to its next [await]. *)
Fixpoint advance {A : Type} (spawned : string -> world -> world * list task)
    (self : option ImageRef) (p : prog A) (w : world) : prog A * world * list task :=
  match p with
  | Act a k =>
      let w1 := apply_action self a w in
      let '(w2, ts) := match a with
                       | spawn_deleteImage u => spawned u w1
                       | _ => (w1, [])
                       end in
      let '(p', w3, ts') := advance spawned self k w2 in
      (p', w3, ts ++ ts')
  | Ret _ | Throw _ | Await _ _ => (p, w, [])
  end.

(** A program that stopped at an [await] has issued the call and stays in
    flight; one that returned or threw is gone. *)
Definition issue {A : Type} (p : prog A) (w : world) : world :=
  match p with
  | Await c _ => emit (Called c) w
  | _ => w
  end.

Definition suspended (self : option ImageRef) (p : prog unit) : list task :=
  match p with
  | Await _ _ => [ {| self := self; code := p |} ]
  | _ => []
  end.

(** The synchronous start of a dropped [deleteImage(u)]. *)
Definition spawn_task (u : string) (w : world) : world * list task :=
  let '(p, w1, _) := advance (fun _ w2 => (w2, [])) None (deleteImage u) w in
  (issue p w1, suspended None p).

(** The screen, the handlers in flight and the dropped promises in
    flight. *)
Record config : Type := mkConfig {
  now : world;
  handlers : list task;
  dropped : list task
}.

Definition initial_config : config :=
  {| now := initial_world; handlers := []; dropped := [] |}.

(** Start or resume the handler [p] in [c], [others] being the handlers
    left in flight. *)
Definition schedule (self : option ImageRef) (p : prog unit) (others : list task)
    (c : config) : config :=
  let '(p', w, ts) := advance spawn_task self p (now c) in
  {| now := issue p' w;
     handlers := others ++ suspended self p';
     dropped := dropped c ++ ts |}.

(** Resume the dropped promise [p]. *)
Definition schedule_dropped (self : option ImageRef) (p : prog unit) (others : list task)
    (c : config) : config :=
  let '(p', w, ts) := advance spawn_task self p (now c) in
  {| now := issue p' w;
     handlers := handlers c;
     dropped := others ++ suspended self p' ++ ts |}.

(** What can happen next.  A press needs its button on screen: Upload and
    Capture are rendered while no image is selected, Analyze and Clear
    while one is and no analysis is running; a closure runs once it has been
    handed to [Alert.alert] or [setTimeout]; a call in flight settles.
    [ready] says when a handler or a closure may start. *)
Inductive step (ready : config -> Prop) (cfg : option string) : config -> config -> Prop :=
| step_upload c :
    ready c ->
    selectedImage (screen (now c)) = None ->
    step ready cfg c (schedule None handlePickImage (handlers c) c)
| step_capture c :
    ready c ->
    selectedImage (screen (now c)) = None ->
    step ready cfg c (schedule None handleCaptureImage (handlers c) c)
| step_analyze c img :
    ready c ->
    selectedImage (screen (now c)) = Some img ->
    isAnalyzing (screen (now c)) = false ->
    step ready cfg c (schedule (Some img) (handleAnalyze cfg (Some img)) (handlers c) c)
| step_clear c img :
    ready c ->
    selectedImage (screen (now c)) = Some img ->
    isAnalyzing (screen (now c)) = false ->
    step ready cfg c (schedule (Some img) (handleClear (Some img)) (handlers c) c)
| step_alert_button c title msg buttons b cb :
    ready c ->
    In (Did (Alert_alert title msg buttons)) (log (now c)) ->
    In b buttons -> onPress b = Some cb ->
    step ready cfg c (schedule (captured cb) (closure_body cb) (handlers c) c)
| step_timer c cb ms :
    ready c ->
    In (Did (setTimeout cb ms)) (log (now c)) ->
    step ready cfg c (schedule (captured cb) (closure_body cb) (handlers c) c)
| step_settle c before sel call k after (r : outcome (reply call)) :
    handlers c = before ++ {| self := sel; code := Await call k |} :: after ->
    step ready cfg c (schedule sel (k r) (before ++ after) c)
| step_settle_dropped c before sel call k after (r : outcome (reply call)) :
    dropped c = before ++ {| self := sel; code := Await call k |} :: after ->
    step ready cfg c (schedule_dropped sel (k r) (before ++ after) c).

Inductive reachable (ready : config -> Prop) (cfg : option string) : config -> Prop :=
| reach_initial : reachable ready cfg initial_config
| reach_step c c' :
    reachable ready cfg c -> step ready cfg c c' -> reachable ready cfg c'.

(** The event loop as it is: a handler starts whenever its button is
    pressed. *)
Definition anytime (c : config) : Prop := True.

(** The call of the [n]th handler in flight settles as [ans] says. *)
Definition answer (n : nat) (ans : replies) (c : config) : config :=
  match nth_error (handlers c) n with
  | Some {| self := sel; code := Await call k |} =>
      schedule sel (k (ans call))
               (firstn n (handlers c) ++ skipn (S n) (handlers c)) c
  | _ => c
  end.

(** ** Properties of events and worlds *)

(** Every action and call a program can perform satisfies [P]. *)
Fixpoint emits_only {A : Type} (P : event -> Prop) (p : prog A) : Prop :=
  match p with
  | Ret _ | Throw _ => True
  | Act a k => P (Did a) /\ emits_only P k
  | Await c k => P (Called c) /\ forall r, emits_only P (k r)
  end.

(** [w'] is [w] with more events, all in [P]. *)
Definition grows_by (P : event -> Prop) (w w' : world) : Prop :=
  exists evs, log w' = log w ++ evs /\ Forall P evs.

Definition not_a_timer (e : event) : Prop :=
  match e with
  | Did (setTimeout _ _) => False
  | _ => True
  end.

Definition keeps_selection (e : event) : Prop :=
  match e with
  | Did (setSelectedImage _) => False
  | _ => True
  end.

Definition no_setter (e : event) : Prop :=
  match e with
  | Did (setSelectedImage _) | Did (setIsAnalyzing _)
  | Did (setAnalysisResult _) | Did (setApiAvailable _) => False
  | _ => True
  end.

(** A POST carries the image with the fixed mime type. *)
Definition posts_jpeg (e : event) : Prop :=
  match e with
  | Called (fetch req) =>
      method req = "POST" ->
      exists base64Image,
        body req = Some (JObj [("image_base64", JStr base64Image);
                               ("mime_type", JStr "image/jpeg")])
  | _ => True
  end.

Definition fails_with_message {A : Type} (r : outcome A) (m : string) : Prop :=
  exists e, r = Rejected e /\ message e = m.

(** The alert of the aborted analysis. *)
Definition unavailable_alert : event :=
  Did (Alert_alert "Service Unavailable"
         "The deepfake detection service is currently unavailable. Please try again later."
         [OK_button]).

(** The user is granted access to the library and cancels the picker. *)
Definition library_cancelled (env : platform) (l : list event) : Prop :=
  exists perm result,
    env l requestMediaLibraryPermissionsAsync = Fulfilled perm /\
    permission_status perm = "granted" /\
    env (l ++ [Called requestMediaLibraryPermissionsAsync]) launchImageLibraryAsync
      = Fulfilled result /\
    canceled result = true.

Definition camera_cancelled (env : platform) (l : list event) : Prop :=
  exists perm result,
    env l requestCameraPermissionsAsync = Fulfilled perm /\
    permission_status perm = "granted" /\
    env (l ++ [Called requestCameraPermissionsAsync]) launchCameraAsync
      = Fulfilled result /\
    canceled result = true.

(** The user is granted access to the library and picks [img]. *)
Definition library_picks (env : platform) (l : list event) (img : ImageRef) : Prop :=
  exists perm result others,
    env l requestMediaLibraryPermissionsAsync = Fulfilled perm /\
    permission_status perm = "granted" /\
    env (l ++ [Called requestMediaLibraryPermissionsAsync]) launchImageLibraryAsync
      = Fulfilled result /\
    canceled result = false /\
    assets result = Some (img :: others).

(** [analysisResult], when it would show, was written by a handler of the
    image now selected. *)
Definition settled (w : world) : Prop :=
  truthy (Some (analysisResult (screen w))) = true ->
  shown_for w = selectedImage (screen w).

(** The two worlds show the same. *)
Definition same_view (w w' : world) : Prop :=
  screen w' = screen w /\ shown_for w' = shown_for w.

(** A task that cannot touch the state. *)
Definition harmless (t : task) : Prop := emits_only no_setter (code t).

(** [analysisResult], when it would show under a selected image, was
    written by a handler of that image. *)
Definition up_to_date (w : world) : Prop :=
  forall img,
    selectedImage (screen w) = Some img ->
    truthy (Some (analysisResult (screen w))) = true ->
    shown_for w = Some img.

(** What a handler in flight finds when it resumes, by the [selectedImage]
    of its render: a pick handler (rendered with no image) finds no image
    selected; [handleAnalyze] of [img] finds the spinner on and [img] still
    selected, or the selection cleared. *)
Definition awaited (self : option ImageRef) (w : world) : Prop :=
  up_to_date w /\
  match self with
  | None => selectedImage (screen w) = None
  | Some img =>
      isAnalyzing (screen w) = true /\
      (selectedImage (screen w) = None \/ selectedImage (screen w) = Some img)
  end.

(** However the platform answers, and whatever happens to the screen while
    [p] is suspended as long as [p] finds it [awaited], the screen is
    [awaited] each time [p] is suspended and [up_to_date] when it ends. *)
Fixpoint stays (self : option ImageRef) (p : prog unit) (w : world) : Prop :=
  match p with
  | Ret _ | Throw _ => up_to_date w
  | Act a k => stays self k (apply_action self a w)
  | Await _ k => awaited self w /\ forall r w', awaited self w' -> stays self (k r) w'
  end.

(** Neither a call nor a new selection. *)
Definition closing (e : event) : Prop :=
  match e with
  | Called _ | Did (setSelectedImage _) => False
  | _ => True
  end.

(** A program that selects nothing and, once it has touched the spinner,
    ends without another [await]. *)
Fixpoint winds_down (p : prog unit) : Prop :=
  match p with
  | Ret _ | Throw _ => True
  | Act (setSelectedImage _) _ => False
  | Act (setIsAnalyzing _) k => emits_only closing k
  | Act _ k => winds_down k
  | Await _ k => forall r, winds_down (k r)
  end.

(** The step from [c] to [c'] is a press of Upload or of Capture. *)
Definition opens_picker (c c' : config) : Prop :=
  c' = schedule None handlePickImage (handlers c) c \/
  c' = schedule None handleCaptureImage (handlers c) c.

(** The event loop as it is, except that a picker is opened only when no
    handler is in flight.  Analyze, Clear, the buttons of the alerts and the
    timers are as free as the screen leaves them. *)
Inductive paced (cfg : option string) : config -> Prop :=
| paced_initial : paced cfg initial_config
| paced_step c c' :
    paced cfg c -> step anytime cfg c c' ->
    (opens_picker c c' -> handlers c = []) ->
    paced cfg c'.

(** A handler suspended at an [await] that finds the screen as it awaits
    it, and keeps it up to date from there. *)
Definition in_flight (t : task) (w : world) : Prop :=
  match code t with
  | Await _ _ => stays (self t) (code t) w
  | _ => False
  end.

(** What holds of the screen then: it is up to date, the dropped promises
    are harmless, and at most one handler is in flight. *)
Definition steady (c : config) : Prop :=
  up_to_date (now c) /\
  Forall harmless (dropped c) /\
  (handlers c = [] \/ exists t, handlers c = [t] /\ in_flight t (now c)).

(** ** The render of the screen and components/DeepfakeResult.jsx *)

(** Sequencing of synchronous code: the second step runs when the first
    completes normally. *)
Definition and_then {A B : Type} (o : outcome A) (f : A -> outcome B) : outcome B :=
  match o with
  | Fulfilled a => f a
  | Rejected e => Rejected e
  end.

(** The markers the backend puts in [verification_result].  Strings are
    UTF-8 here and UTF-16 in JavaScript; on well-formed text the search for
    a whole character finds the same occurrences in both. *)
Definition green_marker : string := "🟢".
Definition red_marker : string := "🔴".

(** [v.includes(needle)] for a value [v] read off a decoded document and a
    string [needle]: [String.prototype.includes] on a string,
    [Array.prototype.includes] on an array, a [TypeError] on everything
    else ([undefined] and [null] have no properties; numbers and booleans
    have no [includes]; an object decoded from JSON holds no function).  The
    wording of the errors is the engine's. *)
Definition js_includes (v : jsval) (needle : string) : outcome bool :=
  match v with
  | None => Rejected (TypeError "Cannot read property 'includes' of undefined")
  | Some JNull => Rejected (cannot_read "includes")
  | Some (JStr s) => Fulfilled (includes needle s)
  | Some (JArr items) =>
      Fulfilled (existsb (fun x => match x with
                                   | JStr s => s =? needle
                                   | _ => false
                                   end) items)
  | Some (JBool _) | Some (JNum _) | Some (JObj _) =>
      Rejected (TypeError "undefined is not a function")
  end.

(** The keys of [theme.colors] and the icons [DeepfakeResult] chooses from. *)
Inductive theme_color : Type := safe | emergency | warning.
Inductive icon : Type := Shield | AlertCircle | AlertTriangle.

Definition getResultColor (result : json) : outcome theme_color :=
  and_then (get_prop result "verification_result") (fun vr =>
  and_then (js_includes vr green_marker) (fun green =>
  if green then Fulfilled safe
  else
    and_then (get_prop result "verification_result") (fun vr' =>
    and_then (js_includes vr' red_marker) (fun red =>
    if red then Fulfilled emergency else Fulfilled warning)))).

Definition getResultIcon (result : json) : outcome icon :=
  and_then (get_prop result "verification_result") (fun vr =>
  and_then (js_includes vr green_marker) (fun green =>
  if green then Fulfilled Shield
  else
    and_then (get_prop result "verification_result") (fun vr' =>
    and_then (js_includes vr' red_marker) (fun red =>
    if red then Fulfilled AlertCircle else Fulfilled AlertTriangle)))).

(** The results block of the screen: the [result] prop handed to
    [DeepfakeResult] and [DeepfakeAnalytics], and whether the Need Help?
    card is shown. *)
Record results_view : Type := mkResults {
  result_prop : json;
  need_help : bool
}.

(** What the function [DeepfakeAnalyzerScreen] itself returns, by its
    conditionals: the two picker buttons, or the selected image with the
    Analyze and Clear buttons (their [disabled]), the progress card and the
    results block.  Styles and fixed texts are left out.  [DeepfakeResult]
    and [DeepfakeAnalytics] are elements of the results block, holding
    [result_prop]: their bodies run after the screen has returned and are
    not part of [render], so a [Fulfilled] says nothing of them (they call
    [toFixed] on fields of the result and throw when those are missing). *)
Inductive screen_view : Type :=
| PickerButtons
| ImagePreview (source_uri : string) (analyze_disabled clear_disabled progress : bool)
               (results : option results_view).

Definition render (s : ui_state) : outcome screen_view :=
  match selectedImage s with
  | None => Fulfilled PickerButtons
  | Some img =>
      and_then
        (if truthy (Some (analysisResult s)) && negb (isAnalyzing s) then
           and_then (get_prop (analysisResult s) "verification_result") (fun vr =>
           and_then (js_includes vr red_marker) (fun red =>
           Fulfilled (Some {| result_prop := analysisResult s; need_help := red |})))
         else Fulfilled None)
        (fun results =>
           Fulfilled (ImagePreview (uri img) (isAnalyzing s) (isAnalyzing s)
                        (isAnalyzing s) results))
  end.

(** The colour that goes with each icon. *)
Definition colour_of (i : icon) : theme_color :=
  match i with
  | Shield => safe
  | AlertCircle => emergency
  | AlertTriangle => warning
  end.

(** The card [DeepfakeResult] shows for a [verification_result] that is a
    string: green wins over red, and neither gives the warning. *)
Definition card_for (verification_result : string) : icon * theme_color :=
  if includes green_marker verification_result then (Shield, safe)
  else if includes red_marker verification_result then (AlertCircle, emergency)
  else (AlertTriangle, warning).

(** ** More properties of programs and events *)

(** A program that cannot end by throwing. *)
Fixpoint no_throw {A : Type} (p : prog A) : Prop :=
  match p with
  | Ret _ => True
  | Throw _ => False
  | Act _ k => no_throw k
  | Await _ k => forall r, no_throw (k r)
  end.

(** Neither a call of [deleteImage] nor one of [FileSystem.deleteAsync]. *)
Definition never_deletes (e : event) : Prop :=
  match e with
  | Called (deleteAsync _) | Did (spawn_deleteImage _) => False
  | _ => True
  end.

(** A deletion is of a local file. *)
Definition deletes_local_only (e : event) : Prop :=
  match e with
  | Called (deleteAsync u) => String.prefix "file://" u = true
  | _ => True
  end.

(** The platform calls among the events, in order. *)
Fixpoint calls_of (l : list event) : list call :=
  match l with
  | [] => []
  | Called c :: rest => c :: calls_of rest
  | Did _ :: rest => calls_of rest
  end.

Definition is_console_error (e : event) : Prop :=
  match e with
  | Did (console_error _ _) => True
  | _ => False
  end.

(** The screen [handleAnalyze] leaves: the selection as it was, the spinner
    off, and the given availability and result. *)
Definition analyzed (s : ui_state) (available : bool) (result : json) : ui_state :=
  {| selectedImage := selectedImage s; isAnalyzing := false;
     analysisResult := result; apiAvailable := available |}.

(** The screen between two user actions: no spinner, and no result without
    an image. *)
Definition at_rest (s : ui_state) : Prop :=
  isAnalyzing s = false /\ (selectedImage s = None -> analysisResult s = JNull).

(** The alert of [handleClear]. *)
Definition clear_alert (selectedImage : option ImageRef) : event :=
  Did (Alert_alert "Clear Analysis"
         "Are you sure you want to clear the current analysis?"
         [ {| text := "Cancel"; style := Some "cancel"; onPress := None |};
           {| text := "Clear"; style := Some "destructive";
              onPress := Some (clearPressed selectedImage) |} ]).

(** Every deletion so far was of a local file, and so will be every deletion
    by what is in flight. *)
Definition deleting_locally (c : config) : Prop :=
  Forall deletes_local_only (log (now c)) /\
  Forall (fun t => emits_only deletes_local_only (code t)) (handlers c) /\
  Forall (fun t => emits_only deletes_local_only (code t)) (dropped c).

(** Access to the library (camera) is granted and the picker settles with
    [result]. *)
Definition library_returns (env : platform) (l : list event) (result : ImagePickerResult)
  : Prop :=
  exists perm,
    env l requestMediaLibraryPermissionsAsync = Fulfilled perm /\
    permission_status perm = "granted" /\
    env (l ++ [Called requestMediaLibraryPermissionsAsync]) launchImageLibraryAsync
      = Fulfilled result.

Definition camera_returns (env : platform) (l : list event) (result : ImagePickerResult)
  : Prop :=
  exists perm,
    env l requestCameraPermissionsAsync = Fulfilled perm /\
    permission_status perm = "granted" /\
    env (l ++ [Called requestCameraPermissionsAsync]) launchCameraAsync
      = Fulfilled result.

(** The errors thrown when access is refused. *)
Definition library_denied : js_error :=
  Error "Sorry, we need camera roll permissions to analyze images.".
Definition camera_denied : js_error :=
  Error "Sorry, we need camera permissions to capture images.".

(** ** Concrete devices *)

(** A device on which access is granted, the user picks [picked] (or
    cancels), every file reads as the same base64 text, deletion fails, and
    the backend answers every request with [resp]. *)
Definition device (picked : option ImageRef) (resp : Response) : replies := fun c =>
  let result :=
    match picked with
    | Some img => {| canceled := false; assets := Some [img] |}
    | None => {| canceled := true; assets := None |}
    end in
  match c return outcome (reply c) with
  | requestMediaLibraryPermissionsAsync => Fulfilled {| permission_status := "granted" |}
  | requestCameraPermissionsAsync => Fulfilled {| permission_status := "granted" |}
  | launchImageLibraryAsync => Fulfilled result
  | launchCameraAsync => Fulfilled result
  | readAsStringAsync _ => Fulfilled "iVBORw0KGgo="
  | deleteAsync _ => Rejected (Error "ENOENT")
  | fetch _ => Fulfilled resp
  end.

(** The network is down; the rest is as in [device]. *)
Definition offline (picked : option ImageRef) : replies := fun c =>
  match c return outcome (reply c) with
  | fetch _ => Rejected (TypeError "Network request failed")
  | c' => device picked {| status := 0; decoded := None |} c'
  end.

Definition healthy : Response :=
  {| status := 200; decoded := Some (JObj [("status", JStr "healthy")]) |}.

(** The backend is healthy and answers the analysis with [analysis]; the
    rest is as in [device]. *)
Definition backend (picked : option ImageRef) (analysis : Response) : replies := fun c =>
  match c return outcome (reply c) with
  | fetch req => if method req =? "GET" then Fulfilled healthy else Fulfilled analysis
  | c' => device picked analysis c'
  end.

(** A platform that answers the same whatever has happened. *)
Definition always (r : replies) : platform := fun _ => r.

Definition tmp_x : string := "file:///tmp/x.jpg".

Definition imgA : ImageRef :=
  {| uri := "file:///cache/ImagePicker/a.png"; width := Some 640%N; height := Some 480%N;
     mimeType := Some "image/png" |}.

Definition imgB : ImageRef :=
  {| uri := "file:///cache/Camera/b.jpg"; width := Some 1280%N; height := Some 960%N;
     mimeType := Some "image/jpeg" |}.

(** A body of the analysis with every field the components read. *)
Definition report (verification_result : string) : json :=
  JObj [("verification_result", JStr verification_result);
        ("confidence_score", JNum "97.5");
        ("explanation", JStr "No signs of manipulation were found.");
        ("detailed_findings", JArr []);
        ("recommendations", JArr []);
        ("deepfake_probability", JNum "2.5");
        ("face_consistency_score", JNum "96");
        ("texture_anomaly_score", JNum "4");
        ("metadata_integrity", JNum "99")].

Definition verdict : json := report "LIKELY AUTHENTIC".

(** Access is refused; the rest is as in [device]. *)
Definition refusing : replies := fun c =>
  match c return outcome (reply c) with
  | requestMediaLibraryPermissionsAsync => Fulfilled {| permission_status := "denied" |}
  | requestCameraPermissionsAsync => Fulfilled {| permission_status := "undetermined" |}
  | c' => device None healthy c'
  end.

(** The picker settles with [result]; the rest is as in [device]. *)
Definition picker (result : ImagePickerResult) : replies := fun c =>
  match c return outcome (reply c) with
  | launchImageLibraryAsync => Fulfilled result
  | launchCameraAsync => Fulfilled result
  | c' => device None healthy c'
  end.

(** No file can be read; the rest is as in [backend]. *)
Definition unreadable (picked : option ImageRef) : replies := fun c =>
  match c return outcome (reply c) with
  | readAsStringAsync _ => Rejected (Error "ENOENT: no such file or directory")
  | c' => backend picked {| status := 200; decoded := Some verdict |} c'
  end.


(** The first render after [img] was picked. *)
Definition picked_world (img : ImageRef) : world :=
  {| screen := {| selectedImage := Some img; isAnalyzing := false;
                  analysisResult := JNull; apiAvailable := true |};
     shown_for := None;
     log := [] |}.

(** A race: Upload and Capture are both pressed before either picker
    answers; the library yields [imgA], Analyze is pressed, the camera yields
    [imgB], and then the analysis of [imgA] completes. *)

(** Upload is pressed: [handlePickImage] asks for access to the library. *)
Definition race_1 : config :=
  schedule None handlePickImage (handlers initial_config) initial_config.
(** Capture is pressed: [handleCaptureImage] asks for access to the camera. *)
Definition race_2 : config :=
  schedule None handleCaptureImage (handlers race_1) race_1.
(** Access to the library is granted: the picker opens. *)
Definition race_3 : config := answer 0 (device (Some imgA) healthy) race_2.
(** The picker returns [imgA]: it is selected. *)
Definition race_4 : config := answer 1 (device (Some imgA) healthy) race_3.
(** Analyze is pressed: [handleAnalyze] checks the backend's health. *)
Definition race_5 : config :=
  schedule (Some imgA) (handleAnalyze None (Some imgA)) (handlers race_4) race_4.
(** Access to the camera is granted: the camera opens. *)
Definition race_6 : config := answer 0 (device (Some imgB) healthy) race_5.
(** The camera returns [imgB]: it is selected. *)
Definition race_7 : config := answer 1 (device (Some imgB) healthy) race_6.
(** The backend is healthy: the file of [imgA] is read. *)
Definition race_8 : config := answer 0 (device (Some imgB) healthy) race_7.
(** The file is read: it is posted. *)
Definition race_9 : config := answer 0 (device (Some imgB) healthy) race_8.
(** The backend returns [verdict]: it is stored and shown. *)
Definition after_race : config :=
  answer 0 (device (Some imgB) {| status := 200; decoded := Some verdict |}) race_9.

(** An ordinary run: [imgA] is picked and analysed, Analyze is pressed
    again, and the timer of the first analysis fires while the second is in
    flight. *)

(** Upload is pressed. *)
Definition rerun_1 : config :=
  schedule None handlePickImage (handlers initial_config) initial_config.
(** Access to the library is granted: the picker opens. *)
Definition rerun_2 : config := answer 0 (device (Some imgA) healthy) rerun_1.
(** The picker returns [imgA]: it is selected. *)
Definition rerun_3 : config := answer 0 (device (Some imgA) healthy) rerun_2.
(** Analyze is pressed. *)
Definition rerun_4 : config :=
  schedule (Some imgA) (handleAnalyze None (Some imgA)) (handlers rerun_3) rerun_3.
(** The backend is healthy: the file is read. *)
Definition rerun_5 : config := answer 0 (device (Some imgA) healthy) rerun_4.
(** The file is read: it is posted. *)
Definition rerun_6 : config := answer 0 (device (Some imgA) healthy) rerun_5.
(** The backend returns [verdict]: it is shown, and the timer is set. *)
Definition rerun_7 : config :=
  answer 0 (device (Some imgA) {| status := 200; decoded := Some verdict |}) rerun_6.
(** Analyze is pressed again. *)
Definition rerun_8 : config :=
  schedule (Some imgA) (handleAnalyze None (Some imgA)) (handlers rerun_7) rerun_7.
(** The timer fires: the file is deleted while the health check is pending. *)
Definition rerun_9 : config :=
  schedule (captured (autoDelete imgA)) (closure_body (autoDelete imgA))
           (handlers rerun_8) rerun_8.

(** * Properties *)

(** ** The interpreter and the control operators *)

Lemma interp_bind {A B : Type} sp me env (p : prog A) (f : A -> prog B) w :
  interp sp me env (bind p f) w =
  match interp sp me env p w with
  | (Fulfilled a, w1) => interp sp me env (f a) w1
  | (Rejected e, w1) => (Rejected e, w1)
  end.
Proof.
  revert w; induction p as [a | e | a k IH | c k IH]; intro w; simpl; auto.
Qed.

Lemma interp_try_catch {A : Type} sp me env (p : prog A) h w :
  interp sp me env (try_catch p h) w =
  match interp sp me env p w with
  | (Fulfilled a, w1) => (Fulfilled a, w1)
  | (Rejected e, w1) => interp sp me env (h e) w1
  end.
Proof.
  revert w; induction p as [a | e | a k IH | c k IH]; intro w; simpl; auto.
Qed.

Lemma interp_try_finally {A : Type} sp me env (p : prog A) fin w :
  interp sp me env (try_finally p fin) w =
  match interp sp me env p w with
  | (r, w1) =>
      match interp sp me env fin w1 with
      | (Fulfilled _, w2) => (r, w2)
      | (Rejected e, w2) => (Rejected e, w2)
      end
  end.
Proof.
  revert w; induction p as [a | e | a k IH | c k IH]; intro w; simpl; auto.
  - rewrite interp_bind. destruct (interp sp me env fin w) as [[u|e] w2]; reflexivity.
  - rewrite interp_bind. destruct (interp sp me env fin w) as [[u|e'] w2]; reflexivity.
Qed.

(** To run to completion is to run up to the next [await] and then to run
    what is left, when both interpreters treat a spawned call alike. *)
Lemma interp_advance {A : Type} sp sp' me env (p : prog A) w :
  (forall u w1, fst (sp' u w1) = sp u w1) ->
  interp sp me env p w =
  (let '(p', w', _) := advance sp' me p w in interp sp me env p' w').
Proof.
  intro Hsp. revert w.
  induction p as [a | e | a k IH | c k IH]; intro w; try reflexivity.
  cbn [interp advance].
  assert (E : (match a with
               | spawn_deleteImage u => sp' u (apply_action me a w)
               | _ => (apply_action me a w, [])
               end)
              = (match a with
                 | spawn_deleteImage u => sp u (apply_action me a w)
                 | _ => apply_action me a w
                 end,
                 snd (match a with
                      | spawn_deleteImage u => sp' u (apply_action me a w)
                      | _ => (apply_action me a w, [])
                      end))).
  { destruct a; try reflexivity. rewrite <- Hsp. now destruct (sp' u _). }
  rewrite E. rewrite IH.
  now destruct (advance sp' me k _) as [[p' w'] ts].
Qed.

(** ** Events of a run *)

Lemma grows_by_refl P w : grows_by P w w.
Proof. exists []. split; [now rewrite app_nil_r | constructor]. Qed.

Lemma grows_by_trans P w1 w2 w3 :
  grows_by P w1 w2 -> grows_by P w2 w3 -> grows_by P w1 w3.
Proof.
  intros (e1 & H1 & F1) (e2 & H2 & F2). exists (e1 ++ e2). split.
  - now rewrite H2, H1, app_assoc.
  - apply Forall_app; auto.
Qed.

Lemma grows_by_emit (P : event -> Prop) e w : P e -> grows_by P w (emit e w).
Proof. intro H. exists [e]. split; [reflexivity | now constructor]. Qed.

Lemma apply_action_grows P me a w : P (Did a) -> grows_by P w (apply_action me a w).
Proof.
  intro H. destruct a; simpl;
    first [ now apply grows_by_emit
          | exists []; split; [simpl; now rewrite app_nil_r | constructor] ].
Qed.

Lemma new_events_grows P w w' :
  grows_by P w w' -> log w' = log w ++ new_events w w' /\ Forall P (new_events w w').
Proof.
  intros (evs & H & F). unfold new_events. rewrite H.
  rewrite skipn_app, skipn_all, Nat.sub_diag. simpl. auto.
Qed.

Lemma new_events_app w w' evs : log w' = log w ++ evs -> new_events w w' = evs.
Proof.
  intro H. unfold new_events. rewrite H.
  now rewrite skipn_app, skipn_all, Nat.sub_diag.
Qed.

Lemma interp_grows {A : Type} P sp me env (p : prog A) w :
  (forall u w1, grows_by P w1 (sp u w1)) ->
  emits_only P p ->
  grows_by P w (snd (interp sp me env p w)).
Proof.
  intros Hsp. revert w.
  induction p as [a | e | a k IH | c k IH]; intros w Hp; simpl in *.
  - apply grows_by_refl.
  - apply grows_by_refl.
  - destruct Hp as [Ha Hk].
    eapply grows_by_trans; [| apply IH; exact Hk].
    eapply grows_by_trans; [apply apply_action_grows; exact Ha |].
    destruct a; try apply grows_by_refl. apply Hsp.
  - destruct Hp as [Hc Hk].
    eapply grows_by_trans; [apply grows_by_emit; exact Hc |].
    apply IH, Hk.
Qed.

Lemma emits_only_bind {A B : Type} P (p : prog A) (f : A -> prog B) :
  emits_only P p -> (forall a, emits_only P (f a)) -> emits_only P (bind p f).
Proof.
  intros Hp Hf. induction p as [a | e | a k IH | c k IH]; simpl in *; intuition.
Qed.

Lemma emits_only_try_catch {A : Type} P (p : prog A) h :
  emits_only P p -> (forall e, emits_only P (h e)) -> emits_only P (try_catch p h).
Proof.
  intros Hp Hh. induction p as [a | e | a k IH | c k IH]; simpl in *; intuition.
Qed.

Lemma emits_only_try_finally {A : Type} P (p : prog A) fin :
  emits_only P p -> emits_only P fin -> emits_only P (try_finally p fin).
Proof.
  intros Hp Hf. induction p as [a | e | a k IH | c k IH]; simpl in *; intuition;
    apply emits_only_bind; simpl; auto.
Qed.

Lemma emits_only_settle {A : Type} P (o : outcome A) : emits_only P (settle o).
Proof. destruct o; exact I. Qed.

Ltac emits_step :=
  match goal with
  | |- emits_only _ (try_catch _ _) => apply emits_only_try_catch
  | |- emits_only _ (try_finally _ _) => apply emits_only_try_finally
  | |- emits_only _ (bind _ _) => apply emits_only_bind
  | |- emits_only _ (settle _) => apply emits_only_settle
  | |- emits_only _ (if ?b then _ else _) => destruct b
  | |- emits_only _ (match ?x with _ => _ end) => destruct x
  | |- forall _, _ => intro
  | |- _ /\ _ => split
  | |- True => exact I
  end.
Ltac emits := repeat (emits_step || (progress cbn [emits_only await act])); auto.

Section ServiceEvents.
Variable P : event -> Prop.
Hypothesis P_call : forall c, (forall req, c <> fetch req) -> P (Called c).
Hypothesis P_error : forall l e, P (Did (console_error l e)).

Lemma deleteImage_emits u : emits_only P (deleteImage u).
Proof. unfold deleteImage. emits; apply P_call; discriminate. Qed.

Lemma checkHealth_emits cfg :
  P (Called (fetch (health_request cfg))) -> emits_only P (checkHealth cfg).
Proof. intro. unfold checkHealth. emits. Qed.

Lemma analyzeImage_emits cfg u :
  (forall b64, P (Called (fetch (analyze_request cfg b64)))) ->
  emits_only P (analyzeImage cfg u).
Proof. intro. unfold analyzeImage, convertToBase64. emits. apply P_call; discriminate. Qed.

Lemma run_grows {A : Type} me env (p : prog A) w :
  emits_only P p -> grows_by P w (snd (run me env p w)).
Proof.
  intro Hp. unfold run. apply interp_grows; [| exact Hp].
  intros u w1. apply interp_grows; [intros; apply grows_by_refl | apply deleteImage_emits].
Qed.
End ServiceEvents.

(** ** What a run leaves alone *)

Lemma interp_frame {A : Type} sp me env (p : prog A) w :
  (forall u w1, screen (sp u w1) = screen w1 /\ shown_for (sp u w1) = shown_for w1) ->
  emits_only no_setter p ->
  screen (snd (interp sp me env p w)) = screen w /\
  shown_for (snd (interp sp me env p w)) = shown_for w.
Proof.
  intros Hsp. revert w.
  induction p as [a | e | a k IH | c k H]; intros w Hp; simpl in *; auto.
  - destruct Hp as [Ha Hk].
    match goal with
    | |- context [interp sp me env k ?w2] => destruct (IH w2 Hk) as [-> ->]
    end.
    destruct a; simpl in Ha; try contradiction; simpl; auto.
    match goal with
    | |- context [sp ?u ?w2] => destruct (Hsp u w2) as [-> ->]
    end. auto.
  - destruct Hp as [_ Hk].
    destruct (H (env (log w) c) (emit (Called c) w) (Hk _)) as [-> ->]. auto.
Qed.

Lemma no_setter_call c : no_setter (Called c).
Proof. exact I. Qed.

Lemma no_setter_error l e : no_setter (Did (console_error l e)).
Proof. exact I. Qed.

Lemma spawned_frame env u w :
  screen (snd (interp (fun _ w2 => w2) None env (deleteImage u) w)) = screen w /\
  shown_for (snd (interp (fun _ w2 => w2) None env (deleteImage u) w)) = shown_for w.
Proof.
  apply interp_frame; [auto |].
  apply deleteImage_emits; [intros; exact I | intros; exact I].
Qed.

Lemma run_frame {A : Type} me env (p : prog A) w :
  emits_only no_setter p ->
  screen (snd (run me env p w)) = screen w /\
  shown_for (snd (run me env p w)) = shown_for w.
Proof.
  intro Hp. apply interp_frame; [| exact Hp]. intros; apply spawned_frame.
Qed.

Lemma interp_keeps_selection {A : Type} sp me env (p : prog A) w :
  (forall u w1, screen (sp u w1) = screen w1) ->
  emits_only keeps_selection p ->
  selectedImage (screen (snd (interp sp me env p w))) = selectedImage (screen w).
Proof.
  intros Hsp. revert w.
  induction p as [a | e | a k IH | c k H]; intros w Hp; simpl in *; auto.
  - destruct Hp as [Ha Hk].
    rewrite (IH _ Hk).
    destruct a; simpl in Ha; try contradiction; simpl; auto.
    now rewrite Hsp.
  - destruct Hp as [_ Hk]. now rewrite (H (env (log w) c) (emit (Called c) w) (Hk _)).
Qed.

Lemma interp_shown_for {A : Type} sp me env (p : prog A) w :
  (forall u w1, shown_for (sp u w1) = shown_for w1) ->
  shown_for w = me ->
  shown_for (snd (interp sp me env p w)) = me.
Proof.
  intros Hsp. revert w.
  induction p as [a | e | a k IH | c k IH]; intros w Hw; simpl in *; auto.
  apply IH. destruct a; simpl; auto. now rewrite Hsp.
Qed.

Lemma keeps_selection_call c : keeps_selection (Called c).
Proof. exact I. Qed.

Lemma not_a_timer_call c : not_a_timer (Called c).
Proof. exact I. Qed.

Lemma not_a_timer_error l e : not_a_timer (Did (console_error l e)).
Proof. exact I. Qed.

(** ** Events of the services and of [handleAnalyze] *)

Section HandlerEvents.
Variable P : event -> Prop.
Hypothesis P_call : forall c, (forall req, c <> fetch req) -> P (Called c).
Hypothesis P_did : forall a, keeps_selection (Did a) -> P (Did a).
Variable cfg : option string.
Hypothesis P_health : P (Called (fetch (health_request cfg))).
Hypothesis P_analyze : forall b64, P (Called (fetch (analyze_request cfg b64))).

Lemma handleAnalyze_emits sel : emits_only P (handleAnalyze cfg sel).
Proof.
  assert (Herr : forall l e, P (Did (console_error l e))) by (intros; now apply P_did).
  destruct sel as [img |]; unfold handleAnalyze; [| emits; now apply P_did].
  apply emits_only_bind; [emits; now apply P_did | intros _].
  apply emits_only_bind; [emits; now apply P_did | intros _].
  apply emits_only_try_finally; [| emits; now apply P_did].
  apply emits_only_try_catch; [| emits; now apply P_did].
  apply emits_only_bind; [now apply checkHealth_emits | intros isHealthy].
  apply emits_only_bind; [emits; now apply P_did | intros _].
  destruct (negb isHealthy); [emits; now apply P_did |].
  apply emits_only_bind; [now apply analyzeImage_emits | intros result].
  emits; now apply P_did.
Qed.
End HandlerEvents.

Lemma pickImage_emits : emits_only no_setter pickImage.
Proof. unfold pickImage. emits; exact I. Qed.

Lemma captureImage_emits : emits_only no_setter captureImage.
Proof. unfold captureImage. emits; exact I. Qed.

Lemma handleAnalyze_keeps_selection cfg env sel w :
  selectedImage (screen (snd (run sel env (handleAnalyze cfg sel) w)))
  = selectedImage (screen w).
Proof.
  apply interp_keeps_selection.
  - intros u w1. apply spawned_frame.
  - apply handleAnalyze_emits; auto; intros; exact I.
Qed.

Lemma run_checkHealth_total cfg me env w :
  exists b, fst (run me env (checkHealth cfg) w) = Fulfilled b.
Proof.
  unfold run, checkHealth. simpl.
  destruct (env (log w) (fetch (health_request cfg))) as [resp | e]; simpl; eauto.
  destruct (ok resp); simpl; eauto.
  destruct (Response_json resp) as [data | e]; simpl; eauto.
  destruct (get_prop data "status") as [st | e]; simpl; eauto.
Qed.

Lemma run_checkHealth_events (P : event -> Prop) cfg me env w :
  (forall c, (forall req, c <> fetch req) -> P (Called c)) ->
  (forall l e, P (Did (console_error l e))) ->
  exists rest,
    log (snd (run me env (checkHealth cfg) w))
    = log w ++ Called (fetch (health_request cfg)) :: rest /\ Forall P rest.
Proof.
  intros P_call P_error. unfold run, checkHealth. simpl.
  match goal with
  | |- context [interp ?sp ?me ?env ?p ?w0] =>
      destruct (interp_grows P sp me env p w0) as (evs & Hevs & Hall)
  end.
  - intros u w1. apply interp_grows; [intros; apply grows_by_refl |].
    apply deleteImage_emits; auto.
  - destruct (env (log w) (fetch (health_request cfg))) as [resp | e]; simpl; emits.
  - exists evs. rewrite Hevs. simpl. now rewrite <- app_assoc.
Qed.

(** ** Strings, alerts, tasks *)

Lemma prefix_refl s : String.prefix s s = true.
Proof.
  induction s as [| a s IH]; simpl; [reflexivity |].
  destruct (ascii_dec a a); [exact IH | congruence].
Qed.

Lemma includes_refl s : includes s s = true.
Proof.
  destruct s; unfold includes; fold includes; now rewrite prefix_refl.
Qed.

Lemma includes_app_r needle pre : includes needle (pre ++ needle) = true.
Proof.
  induction pre as [| a pre IH]; simpl.
  - apply includes_refl.
  - rewrite IH. apply orb_true_r.
Qed.

Lemma last_alert_snoc l title msg buttons :
  last_alert (l ++ [Did (Alert_alert title msg buttons)]) = buttons.
Proof. unfold last_alert. now rewrite fold_left_app. Qed.

Lemma nth_error_middle {A : Type} (l : list A) n t :
  nth_error l n = Some t -> l = firstn n l ++ t :: skipn (S n) l.
Proof.
  revert n; induction l as [| a l IH]; intros [| n] H; simpl in *; try discriminate.
  - now inversion H.
  - f_equal. now apply IH.
Qed.

Lemma answer_step ready cfg n ans c sel call k :
  nth_error (handlers c) n = Some {| self := sel; code := Await call k |} ->
  step ready cfg c (answer n ans c).
Proof.
  intro H. unfold answer. rewrite H.
  apply step_settle. now apply nth_error_middle.
Qed.


(** * The specification, statement by statement *)

(** ** checkHealth *)

(** C1: [checkHealth()] never throws; it returns [true] exactly when the GET
    of [API_BASE_URL + "/api/health"] settles with a response, the response
    is [ok], its body decodes, and the [status] property of the decoded body
    is the string ["healthy"]; it returns [false] otherwise. *)
Theorem checkHealth_true_iff (cfg : option string) (env : platform) (w : world) :
  let r := fst (call_service env (checkHealth cfg) w) in
  (r = Fulfilled true \/ r = Fulfilled false) /\
  (r = Fulfilled true <->
   exists resp data,
     env (log w) (fetch (health_request cfg)) = Fulfilled resp /\
     ok resp = true /\
     decoded resp = Some data /\
     get_prop data "status" = Fulfilled (Some (JStr "healthy"))).
Proof.
  cbv zeta. unfold call_service, run, checkHealth. simpl.
  destruct (env (log w) (fetch (health_request cfg))) as [resp | e] eqn:Hfetch; simpl.
  - destruct (ok resp) eqn:Hok; simpl.
    + unfold Response_json. destruct (decoded resp) as [data |] eqn:Hdec; simpl.
      * destruct (get_prop data "status") as [st | e] eqn:Hst; simpl.
        -- destruct st as [[ | b | n | s | l | fs] | ]; simpl;
             try (split; [now right | split; [discriminate | intros (resp' & data' & H1 & _ & H3 & H4); congruence]]).
           destruct (String.eqb_spec s "healthy") as [-> | Hne].
           ++ split; [now left | split; [intros _; exists resp, data; auto | reflexivity]].
           ++ split; [now right | split; [discriminate |]].
              intros (resp' & data' & H1 & _ & H3 & H4).
              assert (resp' = resp) by congruence; subst resp'.
              assert (data' = data) by congruence; subst data'.
              congruence.
        -- split; [now right | split; [discriminate |]].
           intros (resp' & data' & H1 & _ & H3 & H4).
           assert (resp' = resp) by congruence; subst resp'.
           assert (data' = data) by congruence; subst data'.
           congruence.
      * split; [now right | split; [discriminate |]].
        intros (resp' & data' & H1 & _ & H3 & H4). congruence.
    + split; [now right | split; [discriminate |]].
      intros (resp' & data' & H1 & H2 & _). congruence.
  - split; [now right | split; [discriminate |]].
    intros (resp' & data' & H1 & _). congruence.
Qed.

Example checkHealth_network_failure :
  fst (call_service (always (offline None)) (checkHealth None) initial_world)
  = Fulfilled false.
Proof. reflexivity. Qed.

Example checkHealth_http_500 :
  fst (call_service (always (device None {| status := 500; decoded := None |}))
         (checkHealth None) initial_world)
  = Fulfilled false.
Proof. reflexivity. Qed.

Example checkHealth_status_down :
  fst (call_service
         (always (device None {| status := 200;
                                 decoded := Some (JObj [("status", JStr "down")]) |}))
         (checkHealth None) initial_world)
  = Fulfilled false.
Proof. reflexivity. Qed.

Example checkHealth_unparsable_body :
  fst (call_service (always (device None {| status := 200; decoded := None |}))
         (checkHealth None) initial_world)
  = Fulfilled false.
Proof. reflexivity. Qed.

Example checkHealth_null_body :
  fst (call_service (always (device None {| status := 200; decoded := Some JNull |}))
         (checkHealth None) initial_world)
  = Fulfilled false.
Proof. reflexivity. Qed.

Example checkHealth_healthy :
  fst (call_service (always (device None healthy)) (checkHealth None) initial_world)
  = Fulfilled true /\
  url (health_request None) = "http://localhost:8001/api/health" /\
  method (health_request None) = "GET".
Proof. repeat split; reflexivity. Qed.

(** ** analyzeImage *)

(** C2: when the file of [imageUri] is readable and the POST is answered
    with an [ok] response whose body decodes to [result], [analyzeImage]
    returns [result] itself, whatever its shape. *)
Theorem analyzeImage_returns_decoded_body
    (cfg : option string) (env : platform) (w : world)
    (imageUri base64Image : string) (resp : Response) (result : json) :
  env (log w) (readAsStringAsync imageUri) = Fulfilled base64Image ->
  env (log w ++ [Called (readAsStringAsync imageUri)])
      (fetch (analyze_request cfg base64Image)) = Fulfilled resp ->
  ok resp = true ->
  decoded resp = Some result ->
  fst (call_service env (analyzeImage cfg imageUri) w) = Fulfilled result.
Proof.
  intros Hread Hfetch Hok Hdec.
  unfold call_service, run, analyzeImage, convertToBase64. simpl.
  rewrite Hread. simpl. rewrite Hfetch. simpl.
  rewrite Hok. simpl. unfold Response_json. rewrite Hdec. reflexivity.
Qed.

Lemma analyzeImage_returns_decoded_body_witness :
  fst (call_service (always (device None {| status := 200; decoded := Some verdict |}))
         (analyzeImage None tmp_x) initial_world)
  = Fulfilled verdict.
Proof.
  apply (analyzeImage_returns_decoded_body None
           (always (device None {| status := 200; decoded := Some verdict |}))
           initial_world tmp_x "iVBORw0KGgo="
           {| status := 200; decoded := Some verdict |});
    reflexivity.
Defined.

(** The body is not validated: a number is returned as it is. *)
Example analyzeImage_returns_any_json :
  fst (call_service (always (device None {| status := 201; decoded := Some (JNum "7") |}))
         (analyzeImage None tmp_x) initial_world)
  = Fulfilled (JNum "7").
Proof. reflexivity. Qed.

(** C3, as stated, fails: a 422 response whose body is [{"detail": ""}] has
    a [detail] field, and [analyzeImage] fails with the generic message, not
    with the (empty) detail. *)
Lemma analyzeImage_empty_detail :
  let resp := {| status := 422; decoded := Some (JObj [("detail", JStr "")]) |} in
  let env := always (device None resp) in
  env [] (readAsStringAsync tmp_x) = Fulfilled "iVBORw0KGgo=" /\
  env [Called (readAsStringAsync tmp_x)] (fetch (analyze_request None "iVBORw0KGgo="))
    = Fulfilled resp /\
  ok resp = false /\
  get_prop (JObj [("detail", JStr "")]) "detail" = Fulfilled (Some (JStr "")) /\
  fst (call_service env (analyzeImage None tmp_x) initial_world)
    = Rejected (Error "Analysis failed: 422") /\
  ~ fails_with_message
      (fst (call_service env (analyzeImage None tmp_x) initial_world)) "".
Proof.
  cbv zeta. repeat split; try reflexivity.
  intros (e & He & Hm). vm_compute in He. inversion He; subst e. discriminate Hm.
Qed.

(** C3, amended: when the file is readable and the POST is answered with a
    response that is not [ok] and whose decoded body has a [detail] property
    that is a non-empty string, [analyzeImage] fails with an error whose
    message is exactly that string. *)
Theorem analyzeImage_fails_with_detail
    (cfg : option string) (env : platform) (w : world)
    (imageUri base64Image : string) (resp : Response) (data : json) (detail : string) :
  env (log w) (readAsStringAsync imageUri) = Fulfilled base64Image ->
  env (log w ++ [Called (readAsStringAsync imageUri)])
      (fetch (analyze_request cfg base64Image)) = Fulfilled resp ->
  ok resp = false ->
  decoded resp = Some data ->
  get_prop data "detail" = Fulfilled (Some (JStr detail)) ->
  detail <> "" ->
  fails_with_message (fst (call_service env (analyzeImage cfg imageUri) w)) detail.
Proof.
  intros Hread Hfetch Hok Hdec Hdetail Hne.
  exists (Error detail). split; [| reflexivity].
  unfold call_service, run, analyzeImage, convertToBase64. simpl.
  rewrite Hread. simpl. rewrite Hfetch. simpl.
  rewrite Hok. simpl. unfold Response_json. rewrite Hdec, Hdetail. simpl.
  unfold or_else. simpl.
  destruct detail; [congruence | reflexivity].
Qed.

Lemma analyzeImage_fails_with_detail_witness :
  fails_with_message
    (fst (call_service
            (always (device None {| status := 422;
                                    decoded := Some (JObj [("detail", JStr "bad image")]) |}))
            (analyzeImage None tmp_x) initial_world))
    "bad image".
Proof.
  apply (analyzeImage_fails_with_detail None
           (always (device None {| status := 422;
                                   decoded := Some (JObj [("detail", JStr "bad image")]) |}))
           initial_world tmp_x "iVBORw0KGgo="
           {| status := 422; decoded := Some (JObj [("detail", JStr "bad image")]) |}
           (JObj [("detail", JStr "bad image")]) "bad image");
    try reflexivity; discriminate.
Defined.

(** The part of C4 that holds: a response that is not [ok] and whose body
    does not decode, or decodes to a value whose [detail] reads as
    [undefined], makes [analyzeImage] fail with the generic message, which
    contains the status in decimal. *)
Lemma analyzeImage_generic_failure
    (cfg : option string) (env : platform) (w : world)
    (imageUri base64Image : string) (resp : Response) :
  env (log w) (readAsStringAsync imageUri) = Fulfilled base64Image ->
  env (log w ++ [Called (readAsStringAsync imageUri)])
      (fetch (analyze_request cfg base64Image)) = Fulfilled resp ->
  ok resp = false ->
  (decoded resp = None \/
   exists data, decoded resp = Some data /\ get_prop data "detail" = Fulfilled undefined) ->
  fst (call_service env (analyzeImage cfg imageUri) w)
  = Rejected (Error ("Analysis failed: " ++ string_of_N (status resp))) /\
  includes (string_of_N (status resp))
           (message (Error ("Analysis failed: " ++ string_of_N (status resp)))) = true.
Proof.
  intros Hread Hfetch Hok Hbody. split.
  - unfold call_service, run, analyzeImage, convertToBase64. simpl.
    rewrite Hread. simpl. rewrite Hfetch. simpl.
    rewrite Hok. simpl. unfold Response_json.
    destruct Hbody as [Hdec | (data & Hdec & Hdetail)].
    + rewrite Hdec. reflexivity.
    + rewrite Hdec, Hdetail. reflexivity.
  - unfold message. apply includes_app_r.
Qed.

Example analyzeImage_500_unparsable :
  fst (call_service (always (device None {| status := 500; decoded := None |}))
         (analyzeImage None tmp_x) initial_world)
  = Rejected (Error "Analysis failed: 500") /\
  includes "500" "Analysis failed: 500" = true.
Proof. split; reflexivity. Qed.

(** C4 at a 500 response whose body is the JSON document [null]: the body
    parses and has no [detail] field, but reading [detail] off [null] throws,
    so [analyzeImage] fails with that [TypeError], whose message does not
    mention the status. *)
Lemma analyzeImage_null_error_body :
  let resp := {| status := 500; decoded := Some JNull |} in
  fst (call_service (always (device None resp)) (analyzeImage None tmp_x) initial_world)
    = Rejected (cannot_read "detail") /\
  includes (string_of_N (status resp)) (message (cannot_read "detail")) = false.
Proof. split; reflexivity. Qed.

(** ** deleteImage *)

(** C5: [deleteImage(uri)] always resolves, touches no state, and calls
    [FileSystem.deleteAsync(uri)] exactly when [uri] starts with
    ["file://"]; a failed deletion is only logged. *)
Theorem deleteImage_best_effort (env : platform) (uri : string) (w : world) :
  let r := call_service env (deleteImage uri) w in
  fst r = Fulfilled tt /\
  screen (snd r) = screen w /\
  log (snd r) =
    log w ++
    (if String.prefix "file://" uri then
       Called (deleteAsync uri) ::
       match env (log w) (deleteAsync uri) with
       | Fulfilled _ => []
       | Rejected error => [Did (console_error "Error deleting image:" error)]
       end
     else []).
Proof.
  cbv zeta. unfold call_service, run, deleteImage.
  destruct (String.prefix "file://" uri) eqn:Hp.
  - assert (Ht : truthy_string uri = true)
      by (destruct uri; [discriminate | reflexivity]).
    rewrite Ht. simpl.
    destruct (env (log w) (deleteAsync uri)) as [[] | e]; simpl.
    + now rewrite app_nil_r || auto.
    + rewrite <- app_assoc. auto.
  - rewrite andb_false_r. simpl. now rewrite app_nil_r.
Qed.

Example deleteImage_local_file :
  call_service (always (device None healthy)) (deleteImage tmp_x) initial_world
  = (Fulfilled tt,
     {| screen := initial_ui; shown_for := None;
        log := [Called (deleteAsync tmp_x);
                Did (console_error "Error deleting image:" (Error "ENOENT"))] |}).
Proof. reflexivity. Qed.

Example deleteImage_remote_uri :
  call_service (always (device None healthy)) (deleteImage "https://example.com/x.jpg")
    initial_world
  = (Fulfilled tt, initial_world).
Proof. reflexivity. Qed.

(** ** handleAnalyze *)

(** C6: with an image selected, the first thing [handleAnalyze] does to the
    outside is [checkHealth]'s GET; when [checkHealth] returns [false] it
    shows the service-unavailable alert and does nothing more, so
    [analyzeImage] is not called and no timer is set; a timer is set only
    when [checkHealth] returned [true] and [analyzeImage] succeeded, and it
    is then the one that calls [deleteImage] on the selected image's URI
    after 5000 ms. *)
Theorem handleAnalyze_sequence (cfg : option string) (env : platform) (img : ImageRef) (w : world) :
  let w0 := apply_action (Some img) (setAnalysisResult JNull)
              (apply_action (Some img) (setIsAnalyzing true) w) in
  let health := run (Some img) env (checkHealth cfg) w0 in
  let w1 := apply_action (Some img) (setApiAvailable true) (snd health) in
  let analysis := run (Some img) env (analyzeImage cfg (uri img)) w1 in
  let final := snd (run (Some img) env (handleAnalyze cfg (Some img)) w) in
  (exists rest, new_events w final = Called (fetch (health_request cfg)) :: rest) /\
  (fst health = Fulfilled false -> log final = log (snd health) ++ [unavailable_alert]) /\
  (forall cb ms, In (Did (setTimeout cb ms)) (new_events w final) ->
     fst health = Fulfilled true /\
     (exists result, fst analysis = Fulfilled result) /\
     cb = autoDelete img /\ ms = 5000%N) /\
  (forall result, fst health = Fulfilled true -> fst analysis = Fulfilled result ->
     log final = log (snd analysis) ++ [Did (setTimeout (autoDelete img) 5000)]) /\
  closure_body (autoDelete img) = act (spawn_deleteImage (uri img)).
Proof.
  intros w0 health w1 analysis final.
  assert (Hfinal :
    log final =
    match fst health with
    | Fulfilled false => log (snd health) ++ [unavailable_alert]
    | Fulfilled true =>
        match fst analysis with
        | Fulfilled _ => log (snd analysis) ++ [Did (setTimeout (autoDelete img) 5000)]
        | Rejected e =>
            log (snd analysis) ++
            [Did (console_error "Analysis error:" e);
             Did (Alert_alert "Analysis Failed"
                    (or_string (message e) "Failed to analyze image. Please try again.")
                    [OK_button])]
        end
    | Rejected e => log (snd health)
    end).
  { subst final analysis w1 health. unfold run at 1. unfold handleAnalyze.
    cbn [bind act interp].
    rewrite interp_try_finally, interp_try_catch, interp_bind.
    fold w0. fold (run (Some img) env (checkHealth cfg) w0).
    destruct (run_checkHealth_total cfg (Some img) env w0) as [b Hb].
    destruct (run (Some img) env (checkHealth cfg) w0) as [[[|] | e] wh];
      cbn [fst snd] in *; [| reflexivity | discriminate].
    cbn [negb interp]. rewrite interp_bind.
    match goal with
    | |- context [interp ?sp (Some img) env (analyzeImage cfg (uri img)) ?w1] =>
        change (interp sp (Some img) env (analyzeImage cfg (uri img)) w1)
          with (run (Some img) env (analyzeImage cfg (uri img)) w1)
    end.
    destruct (run (Some img) env (analyzeImage cfg (uri img))
                (apply_action (Some img) (setApiAvailable true) wh))
      as [[result | e] wa]; simpl; [reflexivity |].
    now rewrite <- app_assoc. }
  destruct (run_checkHealth_events not_a_timer cfg (Some img) env w0
              (fun c _ => not_a_timer_call c) not_a_timer_error)
    as (rest & Hhealth & Hrest).
  fold health in Hhealth.
  assert (Hanalysis : grows_by not_a_timer w1 (snd analysis)).
  { apply run_grows; [intros; exact I | intros; exact I |].
    apply analyzeImage_emits; intros; exact I. }
  destruct Hanalysis as (evs & Hevs & Hevs_ok).
  change (log w1) with (log (snd health)) in Hevs.
  change (log w0) with (log w) in Hhealth.
  assert (Hno : forall l cb ms, Forall not_a_timer l -> ~ In (Did (setTimeout cb ms)) l).
  { intros l cb ms Hl Hin. rewrite Forall_forall in Hl. exact (Hl _ Hin). }
  destruct (fst health) as [[|] | e] eqn:Eh; [destruct (fst analysis) as [res | e] eqn:Ea | |].
  - pose proof Hfinal as Hlog.
    rewrite Hevs, Hhealth, <- !app_assoc in Hfinal. simpl in Hfinal.
    apply new_events_app in Hfinal. rewrite Hfinal.
    split; [eauto |]. split; [discriminate |]. split; [| split; [| reflexivity]].
    + intros cb ms [Hin | Hin]; [discriminate |].
      apply in_app_or in Hin. destruct Hin as [Hin | Hin]; [now apply Hno in Hin |].
      apply in_app_or in Hin. destruct Hin as [Hin | Hin]; [now apply Hno in Hin |].
      destruct Hin as [Hin | []]. inversion Hin; subst. eauto.
    + intros result _ _. exact Hlog.
  - rewrite Hevs, Hhealth, <- !app_assoc in Hfinal. simpl in Hfinal.
    apply new_events_app in Hfinal. rewrite Hfinal.
    split; [eauto |]. split; [discriminate |]. split; [| split; [| reflexivity]].
    + intros cb ms [Hin | Hin]; [discriminate |].
      apply in_app_or in Hin. destruct Hin as [Hin | Hin]; [now apply Hno in Hin |].
      apply in_app_or in Hin. destruct Hin as [Hin | Hin]; [now apply Hno in Hin |].
      destruct Hin as [Hin | [Hin | []]]; discriminate.
    + intros result _ Hres. discriminate.
  - pose proof Hfinal as Hlog.
    rewrite Hhealth, <- !app_assoc in Hfinal. simpl in Hfinal.
    apply new_events_app in Hfinal. rewrite Hfinal.
    split; [eauto |]. split; [intros _; exact Hlog |]. split; [| split; [| reflexivity]].
    + intros cb ms [Hin | Hin]; [discriminate |].
      apply in_app_or in Hin. destruct Hin as [Hin | Hin]; [now apply Hno in Hin |].
      destruct Hin as [Hin | []]. discriminate.
    + intros result Hres. discriminate.
  - destruct (run_checkHealth_total cfg (Some img) env w0) as [b Hb].
    fold health in Hb. congruence.
Qed.

Example handleAnalyze_unavailable :
  new_events initial_world
    (snd (run (Some imgA) (always (offline (Some imgA)))
            (handleAnalyze None (Some imgA)) initial_world))
  = [Called (fetch (health_request None));
     Did (console_error "Health check failed:" (TypeError "Network request failed"));
     unavailable_alert].
Proof. reflexivity. Qed.

Example handleAnalyze_failure :
  new_events initial_world
    (snd (run (Some imgA)
            (always (backend (Some imgA)
                       {| status := 422;
                          decoded := Some (JObj [("detail", JStr "bad image")]) |}))
            (handleAnalyze None (Some imgA)) initial_world))
  = [Called (fetch (health_request None));
     Called (readAsStringAsync (uri imgA));
     Called (fetch (analyze_request None "iVBORw0KGgo="));
     Did (console_error "Error analyzing image:" (Error "bad image"));
     Did (console_error "Analysis error:" (Error "bad image"));
     Did (Alert_alert "Analysis Failed" "bad image" [OK_button])].
Proof. reflexivity. Qed.

Example handleAnalyze_success :
  let w := snd (run (Some imgA)
                  (always (backend (Some imgA) {| status := 200; decoded := Some verdict |}))
                  (handleAnalyze None (Some imgA)) initial_world) in
  new_events initial_world w
  = [Called (fetch (health_request None));
     Called (readAsStringAsync (uri imgA));
     Called (fetch (analyze_request None "iVBORw0KGgo="));
     Did (setTimeout (autoDelete imgA) 5000)] /\
  analysisResult (screen w) = verdict /\
  isAnalyzing (screen w) = false.
Proof. repeat split; reflexivity. Qed.

(** When the timer fires, [deleteImage] is called on the image's URI. *)
Example autoDelete_fires :
  log (run_closure (always (device None healthy)) (autoDelete imgA) initial_world)
  = [Did (spawn_deleteImage (uri imgA));
     Called (deleteAsync (uri imgA));
     Did (console_error "Error deleting image:" (Error "ENOENT"))].
Proof. reflexivity. Qed.

(** ** The handlers and the state *)

(** C7: when the user cancels the picker (or the camera), [pickImage]
    ([captureImage]) returns [null] and the handler leaves the four state
    cells as they were. *)
Theorem cancelled_selection_changes_nothing (cfg : option string) (env : platform) (w : world) :
  (library_cancelled env (log w) ->
   fst (call_service env pickImage w) = Fulfilled None /\
   screen (do_action cfg env PressUpload w) = screen w) /\
  (camera_cancelled env (log w) ->
   fst (call_service env captureImage w) = Fulfilled None /\
   screen (do_action cfg env PressCapture w) = screen w).
Proof.
  split; intros (perm & result & Hperm & Hgranted & Hpick & Hcancel).
  - unfold call_service, do_action, run, handlePickImage, pickImage. simpl.
    rewrite Hperm. simpl. rewrite Hgranted. simpl.
    rewrite Hpick. simpl. rewrite Hcancel. simpl. auto.
  - unfold call_service, do_action, run, handleCaptureImage, captureImage. simpl.
    rewrite Hperm. simpl. rewrite Hgranted. simpl.
    rewrite Hpick. simpl. rewrite Hcancel. simpl. auto.
Qed.

Lemma cancelled_selection_changes_nothing_witness :
  (fst (call_service (always (device None healthy)) pickImage initial_world)
     = Fulfilled None /\
   screen (do_action None (always (device None healthy)) PressUpload initial_world)
     = screen initial_world) /\
  (fst (call_service (always (device None healthy)) captureImage initial_world)
     = Fulfilled None /\
   screen (do_action None (always (device None healthy)) PressCapture initial_world)
     = screen initial_world).
Proof.
  destruct (cancelled_selection_changes_nothing None
              (always (device None healthy)) initial_world) as [Hlib Hcam].
  split.
  - apply Hlib.
    exists {| permission_status := "granted" |}, {| canceled := true; assets := None |}.
    repeat split; reflexivity.
  - apply Hcam.
    exists {| permission_status := "granted" |}, {| canceled := true; assets := None |}.
    repeat split; reflexivity.
Defined.

(** C8: the user picks [img], presses Analyze, presses Clear and confirms:
    afterwards [selectedImage] and [analysisResult] are both [null], and the
    confirmation began by calling [deleteImage] with the URI of [img]. *)
Theorem select_analyze_clear (cfg : option string) (env : platform) (img : ImageRef) (w : world) :
  library_picks env (log w) img ->
  let w1 := do_action cfg env PressUpload w in
  let w2 := do_action cfg env PressAnalyze w1 in
  let w3 := do_action cfg env PressClear w2 in
  let w4 := do_action cfg env (PressAlertButton "Clear") w3 in
  selectedImage (screen w1) = Some img /\
  selectedImage (screen w4) = None /\
  analysisResult (screen w4) = JNull /\
  exists rest, new_events w3 w4 = Did (spawn_deleteImage (uri img)) :: rest.
Proof.
  intros (perm & result & others & Hperm & Hgranted & Hpick & Hcancel & Hassets)
         w1 w2 w3 w4.
  assert (H1 : selectedImage (screen w1) = Some img).
  { subst w1. unfold do_action, run, handlePickImage, pickImage. simpl.
    rewrite Hperm. simpl. rewrite Hgranted. simpl.
    rewrite Hpick. simpl. rewrite Hcancel. simpl.
    unfold assets_0. rewrite Hassets. reflexivity. }
  assert (H2 : selectedImage (screen w2) = Some img).
  { subst w2. unfold do_action. rewrite handleAnalyze_keeps_selection. exact H1. }
  assert (H3 : screen w3 = screen w2 /\
               last_alert (log w3) =
               [ {| text := "Cancel"; style := Some "cancel"; onPress := None |};
                 {| text := "Clear"; style := Some "destructive";
                    onPress := Some (clearPressed (Some img)) |} ]).
  { subst w3. unfold do_action. rewrite H2. unfold run, handleClear. simpl.
    split; [reflexivity | apply last_alert_snoc]. }
  destruct H3 as [H3 Halert].
  assert (H4 : w4 = run_closure env (clearPressed (Some img)) w3).
  { subst w4. unfold do_action, press_alert_button. rewrite Halert. reflexivity. }
  split; [exact H1 |].
  rewrite H4. unfold run_closure, run, closure_body. simpl.
  split; [reflexivity |]. split; [reflexivity |].
  match goal with
  | |- context [interp ?sp ?me env (deleteImage ?u) ?w0] =>
      destruct (interp_grows (fun _ => True) sp me env (deleteImage u) w0)
        as (evs & Hevs & _)
  end.
  - intros; apply grows_by_refl.
  - apply deleteImage_emits; auto.
  - exists evs. apply new_events_app. simpl in *. rewrite Hevs.
    now rewrite <- app_assoc.
Qed.

Lemma select_analyze_clear_witness :
  let env := always (device (Some imgA) healthy) in
  let w1 := do_action None env PressUpload initial_world in
  let w2 := do_action None env PressAnalyze w1 in
  let w3 := do_action None env PressClear w2 in
  let w4 := do_action None env (PressAlertButton "Clear") w3 in
  selectedImage (screen w1) = Some imgA /\
  selectedImage (screen w4) = None /\
  analysisResult (screen w4) = JNull /\
  exists rest, new_events w3 w4 = Did (spawn_deleteImage (uri imgA)) :: rest.
Proof.
  apply (select_analyze_clear None (always (device (Some imgA) healthy)) imgA initial_world).
  exists {| permission_status := "granted" |},
         {| canceled := false; assets := Some [imgA] |}, [].
  repeat split; reflexivity.
Defined.

(** C9: the body [analyzeImage] posts has the string ["image/jpeg"] in its
    [mime_type] field; this holds of every POST of [analyzeImage] and of
    [handleAnalyze], for every selected image, and a readable file does
    lead to such a POST. *)
Theorem analyze_request_is_jpeg (cfg : option string) (env : platform) (w : world) :
  (forall base64Image,
     get_prop (JObj [("image_base64", JStr base64Image); ("mime_type", JStr "image/jpeg")])
              "mime_type" = Fulfilled (Some (JStr "image/jpeg")) /\
     body (analyze_request cfg base64Image)
     = Some (JObj [("image_base64", JStr base64Image); ("mime_type", JStr "image/jpeg")])) /\
  (forall imageUri,
     Forall posts_jpeg (new_events w (snd (call_service env (analyzeImage cfg imageUri) w)))) /\
  (forall img,
     Forall posts_jpeg
       (new_events w (snd (run (Some img) env (handleAnalyze cfg (Some img)) w)))) /\
  (forall imageUri base64Image,
     env (log w) (readAsStringAsync imageUri) = Fulfilled base64Image ->
     exists rest,
       new_events w (snd (call_service env (analyzeImage cfg imageUri) w))
       = Called (readAsStringAsync imageUri)
           :: Called (fetch (analyze_request cfg base64Image)) :: rest).
Proof.
  assert (P_call : forall c, (forall req, c <> fetch req) -> posts_jpeg (Called c)).
  { intros [] H; try exact I. now contradiction (H req). }
  assert (P_did : forall a, posts_jpeg (Did a)) by (intros; exact I).
  assert (P_health : posts_jpeg (Called (fetch (health_request cfg))))
    by (simpl; discriminate).
  assert (P_analyze : forall b64, posts_jpeg (Called (fetch (analyze_request cfg b64))))
    by (intros b64 _; now exists b64).
  split; [intros; split; reflexivity |].
  split; [| split].
  - intro imageUri. apply (new_events_grows posts_jpeg).
    apply run_grows; auto. apply analyzeImage_emits; auto.
  - intro img. apply (new_events_grows posts_jpeg).
    apply run_grows; auto. apply handleAnalyze_emits; auto.
  - intros imageUri base64Image Hread.
    unfold call_service, run, analyzeImage, convertToBase64. simpl. rewrite Hread. simpl.
    match goal with
    | |- context [interp ?sp ?me env ?p ?w0] =>
        destruct (interp_grows (fun _ => True) sp me env p w0) as (evs & Hevs & _)
    end.
    + intros u w1. apply interp_grows; [intros; apply grows_by_refl |].
      apply deleteImage_emits; auto.
    + destruct (env _ (fetch (analyze_request cfg base64Image))); emits.
    + exists evs. apply new_events_app. rewrite Hevs. simpl.
      now rewrite <- !app_assoc.
Qed.

(** [imgA] is a PNG, and is posted as a JPEG. *)
Example png_is_posted_as_jpeg :
  mimeType imgA = Some "image/png" /\
  In (Called (fetch (analyze_request None "iVBORw0KGgo=")))
     (log (snd (run (Some imgA)
                  (always (backend (Some imgA) {| status := 200; decoded := Some verdict |}))
                  (handleAnalyze None (Some imgA)) initial_world))).
Proof. split; [reflexivity | simpl; auto]. Qed.

(** ** The result on display *)

Lemma settled_frame w w' :
  screen w' = screen w -> shown_for w' = shown_for w -> settled w -> settled w'.
Proof. unfold settled. intros -> ->. auto. Qed.

(** What a pick handler does with the image the service returns. *)
Lemma run_pick_handler me env (service : prog (option ImageRef)) title fallback w :
  emits_only no_setter service ->
  let w' := snd (run me env
                   (try_catch
                      (image <- service ;;
                       match image with
                       | Some img =>
                           act (setSelectedImage (Some img)) ;;
                           act (setAnalysisResult JNull)
                       | None => Ret tt
                       end)
                      (fun error =>
                         act (Alert_alert title (or_string (message error) fallback) [])))
                   w) in
  match fst (run me env service w) with
  | Fulfilled (Some img) =>
      selectedImage (screen w') = Some img /\ analysisResult (screen w') = JNull
  | _ => screen w' = screen w /\ shown_for w' = shown_for w
  end.
Proof.
  intros Hs w'. subst w'.
  destruct (run_frame me env service w Hs) as [Hscreen Hshown].
  unfold run in *. rewrite interp_try_catch, interp_bind.
  match goal with
  | |- context [interp ?sp me env service w] =>
      destruct (interp sp me env service w) as [[[img |] | e] w1]
  end; simpl in *; auto.
Qed.

Lemma run_closure_settled env cb w : settled w -> settled (run_closure env cb w).
Proof.
  intro Hw. destruct cb as [img | sel].
  - unfold run_closure. destruct (run_frame (captured (autoDelete img)) env
                             (closure_body (autoDelete img)) w) as [H1 H2].
    + simpl. auto.
    + eapply settled_frame; eauto.
  - unfold run_closure, run, closure_body, settled.
    destruct sel as [img |]; simpl; discriminate.
Qed.

Lemma do_action_settled cfg env a w : settled w -> settled (do_action cfg env a w).
Proof.
  intro Hw. destruct a as [| | | | label | cb]; unfold do_action.
  - pose proof (run_pick_handler (selectedImage (screen w)) env pickImage
                  "Error" "Failed to pick image" w pickImage_emits) as H.
    cbv zeta in H. fold handlePickImage in H.
    destruct (fst (run (selectedImage (screen w)) env pickImage w)) as [[img |] | e].
    + destruct H as [_ H]. unfold settled. rewrite H. discriminate.
    + destruct H. eapply settled_frame; eauto.
    + destruct H. eapply settled_frame; eauto.
  - pose proof (run_pick_handler (selectedImage (screen w)) env captureImage
                  "Error" "Failed to capture image" w captureImage_emits) as H.
    cbv zeta in H. fold handleCaptureImage in H.
    destruct (fst (run (selectedImage (screen w)) env captureImage w)) as [[img |] | e].
    + destruct H as [_ H]. unfold settled. rewrite H. discriminate.
    + destruct H. eapply settled_frame; eauto.
    + destruct H. eapply settled_frame; eauto.
  - destruct (selectedImage (screen w)) as [img |] eqn:Hsel.
    + intros _. rewrite handleAnalyze_keeps_selection, Hsel.
      unfold run, handleAnalyze. cbn [bind act interp].
      apply interp_shown_for; [intros; apply spawned_frame | reflexivity].
    + eapply settled_frame; [| | exact Hw]; reflexivity.
  - eapply settled_frame; [| | exact Hw]; reflexivity.
  - unfold press_alert_button.
    destruct (find _ _) as [b |]; [| exact Hw].
    destruct (onPress b) as [cb |]; [| exact Hw].
    now apply run_closure_settled.
  - now apply run_closure_settled.
Qed.

Lemma session_settled cfg env acts w : settled w -> settled (session cfg env acts w).
Proof.
  revert w. induction acts as [| a acts IH]; intros w Hw; simpl; [exact Hw |].
  apply IH. now apply do_action_settled.
Qed.

Lemma settled_consistent w : settled w -> consistent w.
Proof.
  unfold settled, consistent, displayed. intros H r.
  destruct (selectedImage (screen w)); [| discriminate].
  destruct (truthy (Some (analysisResult (screen w)))); [auto | discriminate].
Qed.

(** *** Handlers in flight *)

Lemma same_view_refl w : same_view w w.
Proof. split; reflexivity. Qed.

Lemma same_view_trans w1 w2 w3 : same_view w1 w2 -> same_view w2 w3 -> same_view w1 w3.
Proof. intros [H1 H2] [H3 H4]. split; congruence. Qed.

Lemma same_view_emit e w : same_view w (emit e w).
Proof. split; reflexivity. Qed.

Lemma same_view_settled w w' : same_view w w' -> settled w -> settled w'.
Proof. intros [H1 H2]. now apply settled_frame. Qed.

Lemma apply_action_view me a w w' :
  same_view w w' -> same_view (apply_action me a w) (apply_action me a w').
Proof.
  intros [H1 H2]. destruct a; split; simpl; congruence.
Qed.

Lemma apply_action_no_setter me a w :
  no_setter (Did a) -> same_view w (apply_action me a w).
Proof. destruct a; simpl; intro H; try contradiction; apply same_view_emit. Qed.

Lemma advance_emits {A : Type} P sp me (p : prog A) w :
  (forall u w1, Forall (fun t => emits_only P (code t)) (snd (sp u w1))) ->
  emits_only P p ->
  emits_only P (fst (fst (advance sp me p w))) /\
  Forall (fun t => emits_only P (code t)) (snd (advance sp me p w)).
Proof.
  intro Hsp. revert w.
  induction p as [a | e | a k IH | c k IH]; intros w Hp; simpl in *; auto.
  destruct Hp as [_ Hk].
  destruct (match a with
            | spawn_deleteImage u => sp u (apply_action me a w)
            | _ => (apply_action me a w, [])
            end) as [w2 ts] eqn:E.
  specialize (IH w2 Hk).
  destruct (advance sp me k w2) as [[p' w3] ts']. simpl in *.
  destruct IH as [IH1 IH2]. split; [exact IH1 |].
  apply Forall_app. split; [| exact IH2].
  destruct a; try (inversion E; subst; constructor).
  specialize (Hsp u (apply_action me (spawn_deleteImage u) w)). now rewrite E in Hsp.
Qed.

Lemma suspended_emits P me p :
  emits_only P p -> Forall (fun t => emits_only P (code t)) (suspended me p).
Proof. intro H. destruct p; simpl; auto. Qed.

Lemma spawn_task_harmless u w : Forall harmless (snd (spawn_task u w)).
Proof.
  unfold spawn_task.
  pose proof (advance_emits no_setter (fun _ w2 => (w2, [])) None (deleteImage u) w) as H.
  destruct (advance _ None (deleteImage u) w) as [[p w1] ts]. simpl in *.
  apply suspended_emits, H; [intros; constructor |].
  apply deleteImage_emits; intros; exact I.
Qed.

Lemma advance_view {A : Type} sp me (p : prog A) w :
  (forall u w1, same_view w1 (fst (sp u w1))) ->
  emits_only no_setter p ->
  same_view w (snd (fst (advance sp me p w))).
Proof.
  intro Hsp. revert w.
  induction p as [a | e | a k IH | c k IH]; intros w Hp; simpl in *;
    try apply same_view_refl.
  destruct Hp as [Ha Hk].
  pose proof (apply_action_no_setter me a w Ha) as Hv.
  destruct (match a with
            | spawn_deleteImage u => sp u (apply_action me a w)
            | _ => (apply_action me a w, [])
            end) as [w2 ts] eqn:E.
  assert (Hv2 : same_view w w2).
  { destruct a; try (inversion E; subst; exact Hv).
    eapply same_view_trans; [exact Hv |].
    specialize (Hsp u (apply_action me (spawn_deleteImage u) w)). now rewrite E in Hsp. }
  specialize (IH w2 Hk).
  destruct (advance sp me k w2) as [[p' w3] ts']. simpl in *.
  eapply same_view_trans; eauto.
Qed.

Lemma issue_view {A : Type} (p : prog A) w : same_view w (issue p w).
Proof. destruct p; simpl; try apply same_view_refl. apply same_view_emit. Qed.

Lemma spawn_task_view u w : same_view w (fst (spawn_task u w)).
Proof.
  unfold spawn_task.
  pose proof (advance_view (fun _ w2 => (w2, [])) None (deleteImage u) w) as H.
  destruct (advance _ None (deleteImage u) w) as [[p w1] ts]. simpl in *.
  eapply same_view_trans; [| apply issue_view].
  apply H; [intros; apply same_view_refl |].
  apply deleteImage_emits; intros; exact I.
Qed.

Lemma advance_spawned_harmless {A : Type} me (p : prog A) w :
  Forall harmless (snd (advance spawn_task me p w)).
Proof.
  revert w. induction p as [a | e | a k IH | c k IH]; intro w; simpl; auto.
  destruct (match a with
            | spawn_deleteImage u => spawn_task u (apply_action me a w)
            | _ => (apply_action me a w, [])
            end) as [w2 ts] eqn:E.
  specialize (IH w2). destruct (advance spawn_task me k w2) as [[p' w3] ts'].
  simpl in *. apply Forall_app. split; [| exact IH].
  destruct a; try (inversion E; subst; constructor).
  pose proof (spawn_task_harmless u (apply_action me (spawn_deleteImage u) w)) as H.
  now rewrite E in H.
Qed.

Lemma same_view_up_to_date w w' : same_view w w' -> up_to_date w -> up_to_date w'.
Proof. intros [H1 H2] H img. rewrite H1, H2. apply H. Qed.

Lemma same_view_awaited me w w' : same_view w w' -> awaited me w -> awaited me w'.
Proof.
  intros Hv [Hu Hme]. split; [now apply (same_view_up_to_date w) |].
  destruct Hv as [Hs _]. rewrite Hs. exact Hme.
Qed.

Lemma stays_view me p w w' : same_view w w' -> stays me p w -> stays me p w'.
Proof.
  revert w w'. induction p as [a | e | a k IH | c k IH]; intros w w' Hv; simpl.
  - now apply same_view_up_to_date.
  - now apply same_view_up_to_date.
  - apply IH. now apply apply_action_view.
  - intros [Ha Hk]. split; [now apply (same_view_awaited me w) | exact Hk].
Qed.

Lemma harmless_stays me p w :
  emits_only no_setter p -> awaited me w -> stays me p w.
Proof.
  revert w. induction p as [a | e | a k IH | c k IH]; intros w Hp Hw; simpl in *.
  - apply Hw.
  - apply Hw.
  - destruct Hp as [Ha Hk]. apply IH; [exact Hk |].
    eapply same_view_awaited; [apply apply_action_no_setter; exact Ha | exact Hw].
  - destruct Hp as [_ Hk]. split; [exact Hw |]. intros r w' Hw'. now apply IH.
Qed.

(** A pick handler keeps the screen up to date, if it finds no image
    selected each time it resumes. *)
Lemma pick_handler_stays (service : prog (option ImageRef)) h w :
  emits_only no_setter service ->
  (forall e, emits_only no_setter (h e)) ->
  awaited None w ->
  stays None
    (try_catch
       (image <- service ;;
        match image with
        | Some img => act (setSelectedImage (Some img)) ;; act (setAnalysisResult JNull)
        | None => Ret tt
        end) h) w.
Proof.
  intros Hs Hh. revert w.
  induction service as [[img |] | e | a k IH | c k IH]; intros w Hw; simpl in *.
  - intros img' _. simpl. discriminate.
  - apply Hw.
  - now apply harmless_stays.
  - destruct Hs as [Ha Hk]. apply IH; [exact Hk |].
    eapply same_view_awaited; [apply apply_action_no_setter; exact Ha | exact Hw].
  - destruct Hs as [_ Hk]. split; [exact Hw |]. intros r w' Hw'. now apply IH.
Qed.

(** What an action of the handler of [img] other than a selection keeps. *)
Lemma owner_action img a w :
  keeps_selection (Did a) ->
  up_to_date w ->
  selectedImage (screen w) = None \/ selectedImage (screen w) = Some img ->
  up_to_date (apply_action (Some img) a w) /\
  selectedImage (screen (apply_action (Some img) a w)) = selectedImage (screen w) /\
  match a with
  | setIsAnalyzing _ => True
  | _ => isAnalyzing (screen (apply_action (Some img) a w)) = isAnalyzing (screen w)
  end.
Proof.
  intros Ha Hu Hsel.
  destruct a; simpl in Ha; try contradiction;
    (split; [| split; reflexivity]); try exact Hu.
  intros img' Hsel' _. simpl in *.
  destruct Hsel as [Hsel | Hsel]; congruence.
Qed.

Lemma closing_stays img p w :
  emits_only closing p ->
  up_to_date w ->
  selectedImage (screen w) = None \/ selectedImage (screen w) = Some img ->
  stays (Some img) p w.
Proof.
  revert w. induction p as [a | e | a k IH | c k IH]; intros w Hp Hu Hsel; simpl in *;
    try exact Hu.
  - destruct Hp as [Ha Hk].
    assert (Hks : keeps_selection (Did a)) by (destruct a; exact Ha).
    destruct (owner_action img a w Hks Hu Hsel) as (H1 & H2 & _).
    apply IH; [exact Hk | exact H1 | now rewrite H2].
  - destruct Hp as [[] _].
Qed.

Lemma closing_winds_down p : emits_only closing p -> winds_down p.
Proof.
  induction p as [a | e | a k IH | c k IH]; simpl; auto.
  - intros [Ha Hk]. destruct a; simpl in *; auto.
  - intros [[] _].
Qed.

Lemma winds_down_bind {A : Type} (p : prog A) (f : A -> prog unit) :
  emits_only no_setter p -> (forall a, winds_down (f a)) -> winds_down (bind p f).
Proof.
  intros Hp Hf. induction p as [a | e | a k IH | c k IH]; simpl in *; auto.
  - destruct Hp as [Ha Hk]. destruct a; simpl in *; try contradiction; auto.
  - destruct Hp as [_ Hk]. intro r. now apply IH.
Qed.

Lemma winds_down_try_catch p h :
  winds_down p -> (forall e, emits_only closing (h e)) -> winds_down (try_catch p h).
Proof.
  intros Hp Hh. induction p as [a | e | a k IH | c k IH]; simpl in *; auto.
  - now apply closing_winds_down.
  - destruct a; simpl in *; auto. now apply emits_only_try_catch.
Qed.

Lemma winds_down_try_finally p fin :
  winds_down p -> emits_only closing fin -> winds_down (try_finally p fin).
Proof.
  intros Hp Hf. induction p as [a | e | a k IH | c k IH]; simpl in *; auto.
  - apply closing_winds_down, emits_only_bind; [exact Hf | intros; exact I].
  - apply closing_winds_down, emits_only_bind; [exact Hf | intros; exact I].
  - destruct a; simpl in *; auto. now apply emits_only_try_finally.
Qed.

(** A handler of [img] that winds down keeps the screen up to date, if it
    finds the spinner on and [img] selected, or nothing, each time it
    resumes. *)
Lemma winds_down_stays img p w :
  winds_down p -> awaited (Some img) w -> stays (Some img) p w.
Proof.
  revert w. induction p as [a | e | a k IH | c k IH]; intros w Hp Hw; simpl in *.
  - apply Hw.
  - apply Hw.
  - destruct Hw as (Hu & Hrun & Hsel).
    destruct a; try contradiction;
      try (apply closing_stays; [exact Hp | exact Hu | exact Hsel]);
      match goal with
      | |- stays _ _ (apply_action _ ?a _) =>
          destruct (owner_action img a w I Hu Hsel) as (H1 & H2 & H3)
      end;
      (apply IH; [exact Hp |]; split; [exact H1 |]; rewrite H2, H3; auto).
  - split; [exact Hw |]. intros r w' Hw'. now apply IH.
Qed.

Lemma handleAnalyze_winds_down cfg img :
  winds_down (try_finally
                (try_catch
                   (isHealthy <- checkHealth cfg ;;
                    act (setApiAvailable isHealthy) ;;
                    if negb isHealthy then
                      act (Alert_alert "Service Unavailable"
                             "The deepfake detection service is currently unavailable. Please try again later."
                             [OK_button]) ;;
                      act (setIsAnalyzing false)
                    else
                      result <- analyzeImage cfg (uri img) ;;
                      act (setAnalysisResult result) ;;
                      act (setTimeout (autoDelete img) 5000))
                   (fun error =>
                      act (console_error "Analysis error:" error) ;;
                      act (Alert_alert "Analysis Failed"
                             (or_string (message error)
                                "Failed to analyze image. Please try again.")
                             [OK_button])))
                (act (setIsAnalyzing false))).
Proof.
  apply winds_down_try_finally; [| repeat split].
  apply winds_down_try_catch; [| intro e; repeat split].
  apply winds_down_bind.
  { apply checkHealth_emits; intros; exact I. }
  intro isHealthy. cbn [bind act winds_down]. destruct isHealthy; cbn [negb].
  - apply winds_down_bind; [| intro result; exact I].
    apply analyzeImage_emits; intros; exact I.
  - repeat split.
Qed.

Lemma handleAnalyze_stays cfg img w :
  selectedImage (screen w) = Some img ->
  stays (Some img) (handleAnalyze cfg (Some img)) w.
Proof.
  intro Hsel. unfold handleAnalyze. cbn [bind act stays].
  apply winds_down_stays; [apply handleAnalyze_winds_down |].
  split; [intros img' _; simpl; discriminate |].
  split; [reflexivity | right; exact Hsel].
Qed.

Lemma advance_stays me p w :
  stays me p w ->
  stays me (fst (fst (advance spawn_task me p w)))
           (snd (fst (advance spawn_task me p w))) /\
  up_to_date (snd (fst (advance spawn_task me p w))).
Proof.
  revert w. induction p as [a | e | a k IH | c k IH]; intros w Hp; simpl in *; auto.
  - destruct (match a with
              | spawn_deleteImage u => spawn_task u (apply_action me a w)
              | _ => (apply_action me a w, [])
              end) as [w2 ts] eqn:E.
    assert (Hv : same_view (apply_action me a w) w2).
    { destruct a; try (inversion E; subst; apply same_view_refl).
      pose proof (spawn_task_view u (apply_action me (spawn_deleteImage u) w)) as H.
      now rewrite E in H. }
    specialize (IH w2 (stays_view _ _ _ _ Hv Hp)).
    now destruct (advance spawn_task me k w2) as [[p' w3] ts'].
  - split; [exact Hp | apply Hp].
Qed.

(** A handler starts, or resumes, with no other handler in flight. *)
Lemma schedule_steady me p c :
  Forall harmless (dropped c) ->
  stays me p (now c) ->
  steady (schedule me p [] c).
Proof.
  intros Hd Hp. unfold schedule.
  pose proof (advance_stays me p (now c) Hp) as [Hk Hu].
  pose proof (advance_spawned_harmless me p (now c)) as Hts.
  destruct (advance spawn_task me p (now c)) as [[p' w'] ts]. simpl in *.
  split; [| split]; simpl.
  - eapply same_view_up_to_date; [apply issue_view | exact Hu].
  - apply Forall_app. auto.
  - destruct p' as [a | e | a k | call k]; simpl; auto.
    right. eexists. split; [reflexivity |].
    apply (stays_view me (Await call k) w'); [apply same_view_emit | exact Hk].
Qed.

(** The screen changes under the handlers in flight, which stay as they
    are: either it shows the same, or the selection was cleared. *)
Lemma steady_under c w' ds :
  steady c ->
  same_view (now c) w' \/
  (selectedImage (screen w') = None /\
   isAnalyzing (screen w') = isAnalyzing (screen (now c))) ->
  Forall harmless ds ->
  steady {| now := w'; handlers := handlers c; dropped := ds |}.
Proof.
  intros (Hu & _ & Hh) Hw Hds.
  assert (Hu' : up_to_date w').
  { destruct Hw as [Hv | [Hsel _]]; [now apply (same_view_up_to_date (now c)) |].
    intros img Himg. congruence. }
  split; [exact Hu' | split; [exact Hds |]]. simpl.
  destruct Hh as [Hh | (t & Ht & Hk)]; [now left | right].
  exists t. split; [exact Ht |].
  destruct Hw as [Hv | [Hsel Hrun]].
  { unfold in_flight in *. destruct (code t); try contradiction.
    now apply (stays_view _ _ (now c)). }
  destruct t as [me p]. unfold in_flight in *. simpl in *.
  destruct p as [a | e | a k | call k]; try contradiction.
  destruct Hk as [Ha Hk]. split; [| exact Hk].
  split; [exact Hu' |].
  destruct me as [img |]; [| exact Hsel].
  destruct Ha as (_ & Ha & _). split; [congruence | now left].
Qed.

(** A closure runs to its end at once: what it spawns is harmless, and it
    leaves the screen as it was or clears the selection. *)
Lemma closure_advance cb w :
  exists w' ts,
    advance spawn_task (captured cb) (closure_body cb) w = (Ret tt, w', ts) /\
    Forall harmless ts /\
    (same_view w w' \/
     (selectedImage (screen w') = None /\
      isAnalyzing (screen w') = isAnalyzing (screen w))).
Proof.
  destruct cb as [img | [img |]]; unfold closure_body; cbn [bind act advance captured].
  - pose proof (spawn_task_view (uri img)
                  (apply_action (Some img) (spawn_deleteImage (uri img)) w)) as Hv.
    pose proof (spawn_task_harmless (uri img)
                  (apply_action (Some img) (spawn_deleteImage (uri img)) w)) as Hts.
    destruct (spawn_task (uri img) _) as [w2 ts]. simpl in *.
    exists w2, (ts ++ []). split; [reflexivity |].
    split; [now rewrite app_nil_r |]. left.
    eapply same_view_trans; [apply same_view_emit | exact Hv].
  - pose proof (spawn_task_view (uri img)
                  (apply_action (Some img) (spawn_deleteImage (uri img)) w)) as Hv.
    pose proof (spawn_task_harmless (uri img)
                  (apply_action (Some img) (spawn_deleteImage (uri img)) w)) as Hts.
    destruct (spawn_task (uri img) _) as [w2 ts]. simpl in *.
    eexists. exists (ts ++ []). split; [reflexivity |].
    split; [now rewrite app_nil_r |]. right. simpl.
    split; [reflexivity |]. destruct Hv as [Hv _]. now rewrite Hv.
  - simpl. eexists. exists []. split; [reflexivity |].
    split; [constructor |]. right. split; reflexivity.
Qed.

(** A closure runs, whatever is in flight. *)
Lemma closure_steady cb c :
  steady c -> steady (schedule (captured cb) (closure_body cb) (handlers c) c).
Proof.
  intro Hc. unfold schedule.
  destruct (closure_advance cb (now c)) as (w' & ts & E & Hts & Hw).
  rewrite E. simpl. rewrite app_nil_r.
  apply steady_under; [exact Hc | exact Hw |].
  apply Forall_app. split; [apply Hc | exact Hts].
Qed.

(** A dropped promise resumes, whatever is in flight. *)
Lemma schedule_dropped_steady me p others c :
  steady c -> emits_only no_setter p -> Forall harmless others ->
  steady (schedule_dropped me p others c).
Proof.
  intros Hc Hp Ho. unfold schedule_dropped.
  pose proof (advance_view spawn_task me p (now c) spawn_task_view Hp) as Hv.
  pose proof (advance_emits no_setter spawn_task me p (now c)
                (fun u w1 => spawn_task_harmless u w1) Hp) as [Hp' Hts].
  destruct (advance spawn_task me p (now c)) as [[p' w'] ts]. simpl in *.
  apply steady_under; [exact Hc | |].
  - left. eapply same_view_trans; [exact Hv | apply issue_view].
  - apply Forall_app. split; [exact Ho |].
    apply Forall_app. split; [| exact Hts].
    now apply suspended_emits.
Qed.

Lemma step_steady cfg c c' :
  steady c -> step anytime cfg c c' ->
  (opens_picker c c' -> handlers c = []) ->
  steady c'.
Proof.
  intros Hc Hstep Hgate. pose proof Hc as (Hu & Hd & Hh).
  destruct Hstep as [c _ Hsel | c _ Hsel | c img _ Hsel Hrun | c img _ Hsel Hrun
                    | c title msg buttons b cb _ Hin Hb Hcb | c cb ms _ Hin
                    | c before sel call k after r Hc'
                    | c before sel call k after r Hc'].
  - rewrite (Hgate (or_introl eq_refl)). apply schedule_steady; [exact Hd |].
    apply pick_handler_stays; [apply pickImage_emits | intro e; repeat split |].
    split; [exact Hu | exact Hsel].
  - rewrite (Hgate (or_intror eq_refl)). apply schedule_steady; [exact Hd |].
    apply pick_handler_stays; [apply captureImage_emits | intro e; repeat split |].
    split; [exact Hu | exact Hsel].
  - destruct Hh as [Hh | ([me p] & _ & Hk)].
    + rewrite Hh. apply schedule_steady; [exact Hd |].
      now apply handleAnalyze_stays.
    + unfold in_flight in Hk. simpl in Hk.
      destruct p as [a | e | a k | call k]; try contradiction.
      destruct Hk as [[_ Ha] _].
      destruct me as [img' |]; [destruct Ha |]; congruence.
  - unfold schedule, handleClear. simpl. rewrite !app_nil_r.
    apply steady_under; [exact Hc | left; apply same_view_emit | exact Hd].
  - now apply closure_steady.
  - now apply closure_steady.
  - destruct Hh as [Hh | (t & Ht & Hk)].
    + rewrite Hh in Hc'. now destruct before.
    + rewrite Ht in Hc'.
      destruct before as [| t' before]; simpl in Hc'.
      * inversion Hc'; subst. unfold in_flight in Hk. simpl in Hk.
        destruct Hk as [Ha Hk].
        apply schedule_steady; [exact Hd |]. apply Hk. exact Ha.
      * inversion Hc' as [[E1 E2]]. now destruct before.
  - apply schedule_dropped_steady; auto.
    + rewrite Hc' in Hd. apply Forall_app in Hd. destruct Hd as [_ Hd].
      inversion Hd as [| ? ? Ht _]; subst. unfold harmless in Ht. simpl in Ht.
      apply Ht.
    + rewrite Hc' in Hd. apply Forall_app in Hd. destruct Hd as [H1 H2].
      inversion H2; subst. apply Forall_app. auto.
Qed.

Lemma paced_steady cfg c : paced cfg c -> steady c.
Proof.
  induction 1 as [| c c' _ IH Hstep Hgate].
  - split; [intros img Hsel; discriminate Hsel | split; [constructor | now left]].
  - now apply (step_steady cfg c).
Qed.

Lemma up_to_date_consistent w : up_to_date w -> consistent w.
Proof.
  unfold up_to_date, consistent, displayed. intros H r.
  destruct (selectedImage (screen w)) as [img |]; [| discriminate].
  destruct (truthy (Some (analysisResult (screen w)))); [auto | discriminate].
Qed.

(** *** The race *)

Lemma race_reachable : reachable anytime None after_race.
Proof.
  assert (R1 : reachable anytime None race_1)
    by (eapply reach_step; [apply reach_initial | now apply step_upload]).
  assert (R2 : reachable anytime None race_2)
    by (eapply reach_step; [exact R1 | now apply step_capture]).
  assert (R3 : reachable anytime None race_3)
    by (eapply reach_step; [exact R2 | eapply answer_step; reflexivity]).
  assert (R4 : reachable anytime None race_4)
    by (eapply reach_step; [exact R3 | eapply answer_step; reflexivity]).
  assert (R5 : reachable anytime None race_5)
    by (eapply reach_step; [exact R4 | now apply step_analyze]).
  assert (R6 : reachable anytime None race_6)
    by (eapply reach_step; [exact R5 | eapply answer_step; reflexivity]).
  assert (R7 : reachable anytime None race_7)
    by (eapply reach_step; [exact R6 | eapply answer_step; reflexivity]).
  assert (R8 : reachable anytime None race_8)
    by (eapply reach_step; [exact R7 | eapply answer_step; reflexivity]).
  assert (R9 : reachable anytime None race_9)
    by (eapply reach_step; [exact R8 | eapply answer_step; reflexivity]).
  eapply reach_step; [exact R9 | eapply answer_step; reflexivity].
Qed.

(** C10, as stated, fails: the handlers reset [analysisResult] as the
    claim says, but the invariant does not follow.  In [after_race], which
    the screen can reach, the result on display was computed from [imgA]
    while the selected image is [imgB]. *)
Lemma stale_result_after_race :
  reachable anytime None after_race /\
  selectedImage (screen (now after_race)) = Some imgB /\
  displayed (screen (now after_race)) = Some verdict /\
  shown_for (now after_race) = Some imgA /\
  ~ consistent (now after_race).
Proof.
  split; [exact race_reachable |].
  split; [reflexivity |]. split; [reflexivity |]. split; [reflexivity |].
  intro H. specialize (H verdict eq_refl). discriminate H.
Qed.

(** The race opens its second picker while the first is in flight. *)
Example race_opens_a_second_picker :
  opens_picker race_1 race_2 /\ length (handlers race_1) = 1.
Proof. split; [right |]; reflexivity. Qed.

(** An ordinary run in which the timer fires while a handler is in flight
    opens its one picker with nothing in flight. *)
Example timer_fires_in_flight :
  paced None rerun_9 /\
  length (handlers rerun_9) = 1 /\
  In (Called (deleteAsync (uri imgA))) (log (now rerun_9)).
Proof.
  assert (Hgate : forall c c' : config,
             length (handlers c') <= length (handlers c) ->
             opens_picker c c' -> handlers c = []).
  { intros c c' Hle [H | H]; rewrite H in Hle; unfold schedule in Hle;
      simpl in Hle; rewrite length_app in Hle; simpl in Hle;
      rewrite Nat.add_comm in Hle; now apply Nat.nle_succ_diag_l in Hle. }
  assert (R1 : paced None rerun_1).
  { eapply paced_step; [apply paced_initial | now apply step_upload |].
    intros _. reflexivity. }
  assert (R2 : paced None rerun_2).
  { eapply paced_step; [exact R1 | eapply answer_step; reflexivity |].
    apply Hgate. vm_compute. repeat constructor. }
  assert (R3 : paced None rerun_3).
  { eapply paced_step; [exact R2 | eapply answer_step; reflexivity |].
    apply Hgate. vm_compute. repeat constructor. }
  assert (R4 : paced None rerun_4).
  { eapply paced_step; [exact R3 | now apply step_analyze |].
    intros _. reflexivity. }
  assert (R5 : paced None rerun_5).
  { eapply paced_step; [exact R4 | eapply answer_step; reflexivity |].
    apply Hgate. vm_compute. repeat constructor. }
  assert (R6 : paced None rerun_6).
  { eapply paced_step; [exact R5 | eapply answer_step; reflexivity |].
    apply Hgate. vm_compute. repeat constructor. }
  assert (R7 : paced None rerun_7).
  { eapply paced_step; [exact R6 | eapply answer_step; reflexivity |].
    apply Hgate. vm_compute. repeat constructor. }
  assert (R8 : paced None rerun_8).
  { eapply paced_step; [exact R7 | now apply step_analyze |].
    intros _. reflexivity. }
  split; [| split; [reflexivity | vm_compute; tauto]].
  eapply paced_step; [exact R8 | |].
  - apply (step_timer anytime None rerun_8 (autoDelete imgA) 5000); [exact I |].
    vm_compute. tauto.
  - apply Hgate. vm_compute. repeat constructor.
Qed.

(** C10, amended: when [pickImage] or [captureImage] returns an image the
    handler selects it and resets [analysisResult] to [null];
    [handleAnalyze] resets [analysisResult] before its first [await]; and as
    long as a picker is opened only when no handler is in flight, a result
    on display was computed from the selected image.  This holds when each
    user action is handled to completion before the next, and it holds on
    the event loop, where Analyze, Clear, the buttons of the alerts and the
    timers come whenever the screen allows them, also while a handler is in
    flight. *)
Theorem one_at_a_time_consistent (cfg : option string) (env : platform) :
  (forall w img,
     fst (run (selectedImage (screen w)) env pickImage w) = Fulfilled (Some img) ->
     selectedImage (screen (do_action cfg env PressUpload w)) = Some img /\
     analysisResult (screen (do_action cfg env PressUpload w)) = JNull) /\
  (forall w img,
     fst (run (selectedImage (screen w)) env captureImage w) = Fulfilled (Some img) ->
     selectedImage (screen (do_action cfg env PressCapture w)) = Some img /\
     analysisResult (screen (do_action cfg env PressCapture w)) = JNull) /\
  (forall img, exists rest,
     handleAnalyze cfg (Some img)
     = Act (setIsAnalyzing true) (Act (setAnalysisResult JNull) rest)) /\
  (forall acts, consistent (session cfg env acts initial_world)) /\
  (forall c, paced cfg c -> consistent (now c)).
Proof.
  split; [| split; [| split; [| split]]].
  - intros w img Hpick.
    pose proof (run_pick_handler (selectedImage (screen w)) env pickImage
                  "Error" "Failed to pick image" w pickImage_emits) as H.
    cbv zeta in H. rewrite Hpick in H. exact H.
  - intros w img Hpick.
    pose proof (run_pick_handler (selectedImage (screen w)) env captureImage
                  "Error" "Failed to capture image" w captureImage_emits) as H.
    cbv zeta in H. rewrite Hpick in H. exact H.
  - intro img. eexists. reflexivity.
  - intro acts. apply settled_consistent, session_settled.
    unfold settled. discriminate.
  - intros c Hc. apply up_to_date_consistent.
    now destruct (paced_steady cfg c Hc).
Qed.

(** * Further properties *)

(** ** Programs that cannot throw *)

Lemma no_throw_bind {A B : Type} (p : prog A) (f : A -> prog B) :
  no_throw p -> (forall a, no_throw (f a)) -> no_throw (bind p f).
Proof.
  intros Hp Hf. induction p as [a | e | a k IH | c k IH]; simpl in *.
  - auto.
  - contradiction.
  - auto.
  - auto.
Qed.

Lemma no_throw_try_catch {A : Type} (p : prog A) h :
  (forall e, no_throw (h e)) -> no_throw (try_catch p h).
Proof.
  intro Hh. induction p as [a | e | a k IH | c k IH]; simpl; auto.
Qed.

Lemma no_throw_try_finally {A : Type} (p : prog A) fin :
  no_throw p -> no_throw fin -> no_throw (try_finally p fin).
Proof.
  intros Hp Hf. induction p as [a | e | a k IH | c k IH]; simpl in *.
  - apply no_throw_bind; simpl; auto.
  - contradiction.
  - auto.
  - auto.
Qed.

Lemma interp_no_throw {A : Type} sp me env (p : prog A) w :
  no_throw p -> exists a, fst (interp sp me env p w) = Fulfilled a.
Proof.
  revert w. induction p as [a | e | a k IH | c k IH]; intros w Hp; simpl in *.
  - eauto.
  - contradiction.
  - eauto.
  - eauto.
Qed.

Lemma handlePickImage_no_throw : no_throw handlePickImage.
Proof. apply no_throw_try_catch. intro e. exact I. Qed.

Lemma handleCaptureImage_no_throw : no_throw handleCaptureImage.
Proof. apply no_throw_try_catch. intro e. exact I. Qed.

Lemma handleAnalyze_no_throw cfg sel : no_throw (handleAnalyze cfg sel).
Proof.
  destruct sel as [img |]; [| exact I].
  unfold handleAnalyze. cbn [bind act no_throw].
  apply no_throw_try_finally; [| exact I].
  apply no_throw_try_catch. intro e. exact I.
Qed.

Lemma closure_body_no_throw cb : no_throw (closure_body cb).
Proof. destruct cb as [img | [img |]]; exact I. Qed.

Lemma deleteImage_no_throw u : no_throw (deleteImage u).
Proof. apply no_throw_try_catch. intro e. exact I. Qed.

(** X1: no handler of the screen, and no closure it hands out, ever
    rejects: whatever the platform does, every failure ends in an alert or
    in the console. *)
Theorem handlers_never_reject (cfg : option string) (env : platform) (w : world)
    (me sel : option ImageRef) (cb : closure) :
  fst (run me env handlePickImage w) = Fulfilled tt /\
  fst (run me env handleCaptureImage w) = Fulfilled tt /\
  fst (run me env (handleAnalyze cfg sel) w) = Fulfilled tt /\
  fst (run me env (handleClear sel) w) = Fulfilled tt /\
  fst (run me env (closure_body cb) w) = Fulfilled tt.
Proof.
  assert (H : forall p : prog unit, no_throw p -> fst (run me env p w) = Fulfilled tt).
  { intros p Hp. unfold run.
    match goal with
    | |- fst (interp ?sp _ _ _ _) = _ =>
        destruct (interp_no_throw sp me env p w Hp) as [[] Ha]
    end. exact Ha. }
  split; [apply H, handlePickImage_no_throw |].
  split; [apply H, handleCaptureImage_no_throw |].
  split; [apply H, handleAnalyze_no_throw |].
  split; [apply H; exact I |].
  apply H, closure_body_no_throw.
Qed.

(** ** What [handleAnalyze] leaves behind *)

Lemma checkHealth_no_setter cfg : emits_only no_setter (checkHealth cfg).
Proof. apply checkHealth_emits; intros; exact I. Qed.

Lemma analyzeImage_no_setter cfg u : emits_only no_setter (analyzeImage cfg u).
Proof. apply analyzeImage_emits; intros; exact I. Qed.

(** The run of [handleAnalyze] on a selected image, by the outcomes of the
    health check and of the analysis. *)
Lemma handleAnalyze_run cfg env img w :
  let me := Some img in
  let w0 := apply_action me (setAnalysisResult JNull)
              (apply_action me (setIsAnalyzing true) w) in
  let health := run me env (checkHealth cfg) w0 in
  let w1 := apply_action me (setApiAvailable true) (snd health) in
  let analysis := run me env (analyzeImage cfg (uri img)) w1 in
  snd (run me env (handleAnalyze cfg me) w) =
  match fst health with
  | Fulfilled true =>
      match fst analysis with
      | Fulfilled result =>
          apply_action me (setIsAnalyzing false)
            (apply_action me (setTimeout (autoDelete img) 5000)
               (apply_action me (setAnalysisResult result) (snd analysis)))
      | Rejected error =>
          apply_action me (setIsAnalyzing false)
            (apply_action me
               (Alert_alert "Analysis Failed"
                  (or_string (message error) "Failed to analyze image. Please try again.")
                  [OK_button])
               (apply_action me (console_error "Analysis error:" error) (snd analysis)))
      end
  | _ =>
      apply_action me (setIsAnalyzing false)
        (apply_action me (setIsAnalyzing false)
           (emit unavailable_alert
              (apply_action me (setApiAvailable false) (snd health))))
  end.
Proof.
  intros me w0 health w1 analysis. subst analysis w1 health me.
  unfold run at 1. unfold handleAnalyze. cbn [bind act interp].
  rewrite interp_try_finally, interp_try_catch, interp_bind.
  fold w0. fold (run (Some img) env (checkHealth cfg) w0).
  destruct (run_checkHealth_total cfg (Some img) env w0) as [b Hb].
  destruct (run (Some img) env (checkHealth cfg) w0) as [[[|] | e] wh];
    cbn [fst snd] in *; [| reflexivity | discriminate].
  cbn [negb interp]. rewrite interp_bind.
  match goal with
  | |- context [interp ?sp (Some img) env (analyzeImage cfg (uri img)) ?w1] =>
      change (interp sp (Some img) env (analyzeImage cfg (uri img)) w1)
        with (run (Some img) env (analyzeImage cfg (uri img)) w1)
  end.
  destruct (run (Some img) env (analyzeImage cfg (uri img))
              (apply_action (Some img) (setApiAvailable true) wh))
    as [[result | e] wa]; reflexivity.
Qed.

(** The screen [handleAnalyze] leaves on a selected image. *)
Lemma handleAnalyze_screen (cfg : option string) (env : platform)
    (img : ImageRef) (w : world) :
  let me := Some img in
  let w0 := apply_action me (setAnalysisResult JNull)
              (apply_action me (setIsAnalyzing true) w) in
  let health := run me env (checkHealth cfg) w0 in
  let w1 := apply_action me (setApiAvailable true) (snd health) in
  let analysis := run me env (analyzeImage cfg (uri img)) w1 in
  screen (snd (run me env (handleAnalyze cfg me) w)) =
  match fst health, fst analysis with
  | Fulfilled true, Fulfilled result => analyzed (screen w) true result
  | Fulfilled true, Rejected _ => analyzed (screen w) true JNull
  | _, _ => analyzed (screen w) false JNull
  end.
Proof.
  intros me w0 health w1 analysis.
  pose proof (handleAnalyze_run cfg env img w) as Hrun. cbv zeta in Hrun.
  fold me w0 health w1 analysis in Hrun. rewrite Hrun. clear Hrun.
  destruct (run_frame me env (checkHealth cfg) w0 (checkHealth_no_setter cfg))
    as [Hh _].
  fold health in Hh.
  destruct (run_frame me env (analyzeImage cfg (uri img)) w1
              (analyzeImage_no_setter cfg (uri img))) as [Ha _].
  fold analysis in Ha.
  destruct (fst health) as [[|] | e]; [destruct (fst analysis) as [result | e] | |];
    unfold analyzed; simpl; rewrite ?Ha; simpl; rewrite ?Hh; reflexivity.
Qed.

(** X2: a press of Analyze ends with the spinner off and the selection as
    it was, whatever the platform does.  With no image selected nothing
    changes; otherwise [apiAvailable] is what [checkHealth] returned, and
    [analysisResult] is the body [analyzeImage] returned, or [null] when the
    check or the analysis failed. *)
Theorem analyze_press_final_state (cfg : option string) (env : platform) (w : world) :
  screen (do_action cfg env PressAnalyze w) =
  match selectedImage (screen w) with
  | None => screen w
  | Some img =>
      let me := Some img in
      let w0 := apply_action me (setAnalysisResult JNull)
                  (apply_action me (setIsAnalyzing true) w) in
      let health := run me env (checkHealth cfg) w0 in
      let w1 := apply_action me (setApiAvailable true) (snd health) in
      let analysis := run me env (analyzeImage cfg (uri img)) w1 in
      match fst health, fst analysis with
      | Fulfilled true, Fulfilled result => analyzed (screen w) true result
      | Fulfilled true, Rejected _ => analyzed (screen w) true JNull
      | _, _ => analyzed (screen w) false JNull
      end
  end.
Proof.
  unfold do_action.
  destruct (selectedImage (screen w)) as [img |] eqn:Hsel; [| reflexivity].
  apply handleAnalyze_screen.
Qed.

Example analyze_press_stores_the_verdict :
  screen (do_action None
            (always (backend (Some imgA) {| status := 200; decoded := Some verdict |}))
            PressAnalyze
            {| screen := {| selectedImage := Some imgA; isAnalyzing := false;
                            analysisResult := JNull; apiAvailable := false |};
               shown_for := None; log := [] |})
  = {| selectedImage := Some imgA; isAnalyzing := false;
       analysisResult := verdict; apiAvailable := true |}.
Proof. reflexivity. Qed.

(** ** The services, when things go wrong *)

Lemma emits_only_True {A : Type} (p : prog A) : emits_only (fun _ => True) p.
Proof. induction p; simpl; auto. Qed.

Lemma run_grows_True {A : Type} me env (p : prog A) w :
  exists evs, log (snd (run me env p w)) = log w ++ evs.
Proof.
  destruct (run_grows (fun _ => True) (fun _ _ => I) (fun _ _ => I) me env p w
              (emits_only_True p)) as (evs & H & _).
  eauto.
Qed.

(** A service that logs and rethrows: a rejection is the last thing it
    logged. *)
Lemma logged_rethrow {A : Type} me env (body : prog A) label w e :
  fst (run me env
         (try_catch body (fun error => act (console_error label error) ;; Throw error)) w)
    = Rejected e ->
  exists evs,
    new_events w
      (snd (run me env
              (try_catch body (fun error => act (console_error label error) ;; Throw error))
              w))
    = evs ++ [Did (console_error label e)].
Proof.
  unfold run. rewrite interp_try_catch.
  match goal with
  | |- context [interp ?sp me env body w] =>
      destruct (interp_grows (fun _ => True) sp me env body w) as (evs & Hevs & _);
        [ intros u w1; apply interp_grows;
          [intros; apply grows_by_refl | apply emits_only_True]
        | apply emits_only_True | ];
      destruct (interp sp me env body w) as [[a | e'] w1]
  end; simpl in *.
  - discriminate.
  - intro H. inversion H; subst e'. exists evs.
    apply new_events_app. cbn [interp bind act apply_action emit snd log].
    rewrite Hevs. now rewrite <- app_assoc.
Qed.

(** X3: each service function that rejects has logged, as the last thing it
    did, the very error it rejects with. *)
Theorem rejections_are_logged (cfg : option string) (env : platform) (w : world)
    (u : string) (e : js_error) :
  (fst (call_service env pickImage w) = Rejected e ->
   exists evs, new_events w (snd (call_service env pickImage w))
               = evs ++ [Did (console_error "Error picking image:" e)]) /\
  (fst (call_service env captureImage w) = Rejected e ->
   exists evs, new_events w (snd (call_service env captureImage w))
               = evs ++ [Did (console_error "Error capturing image:" e)]) /\
  (fst (call_service env (convertToBase64 u) w) = Rejected e ->
   exists evs, new_events w (snd (call_service env (convertToBase64 u) w))
               = evs ++ [Did (console_error "Error converting to base64:" e)]) /\
  (fst (call_service env (analyzeImage cfg u) w) = Rejected e ->
   exists evs, new_events w (snd (call_service env (analyzeImage cfg u) w))
               = evs ++ [Did (console_error "Error analyzing image:" e)]).
Proof.
  unfold call_service.
  split; [| split; [| split]]; apply logged_rethrow.
Qed.

Lemma rejections_are_logged_witness :
  fst (call_service (always (offline None)) (analyzeImage None tmp_x) initial_world)
    = Rejected (TypeError "Network request failed") /\
  exists evs,
    new_events initial_world
      (snd (call_service (always (offline None)) (analyzeImage None tmp_x) initial_world))
    = evs ++ [Did (console_error "Error analyzing image:"
                     (TypeError "Network request failed"))].
Proof.
  split; [reflexivity |].
  apply (rejections_are_logged None (always (offline None)) initial_world tmp_x
           (TypeError "Network request failed")).
  reflexivity.
Defined.

(** X4: when access to the library (the camera) is not granted, [pickImage]
    ([captureImage]) throws its own error without opening the picker, and
    the handler shows it in an alert and leaves the state alone. *)
Theorem permission_refused (cfg : option string) (env : platform) (w : world)
    (perm : PermissionResponse) :
  permission_status perm <> "granted" ->
  (env (log w) requestMediaLibraryPermissionsAsync = Fulfilled perm ->
   fst (call_service env pickImage w) = Rejected library_denied /\
   new_events w (snd (call_service env pickImage w))
   = [Called requestMediaLibraryPermissionsAsync;
      Did (console_error "Error picking image:" library_denied)] /\
   screen (do_action cfg env PressUpload w) = screen w /\
   new_events w (do_action cfg env PressUpload w)
   = [Called requestMediaLibraryPermissionsAsync;
      Did (console_error "Error picking image:" library_denied);
      Did (Alert_alert "Error" (message library_denied) [])]) /\
  (env (log w) requestCameraPermissionsAsync = Fulfilled perm ->
   fst (call_service env captureImage w) = Rejected camera_denied /\
   new_events w (snd (call_service env captureImage w))
   = [Called requestCameraPermissionsAsync;
      Did (console_error "Error capturing image:" camera_denied)] /\
   screen (do_action cfg env PressCapture w) = screen w /\
   new_events w (do_action cfg env PressCapture w)
   = [Called requestCameraPermissionsAsync;
      Did (console_error "Error capturing image:" camera_denied);
      Did (Alert_alert "Error" (message camera_denied) [])]).
Proof.
  intro Hperm. apply String.eqb_neq in Hperm.
  split; intro Hreq.
  - unfold call_service, do_action, run, handlePickImage, pickImage. simpl.
    rewrite Hreq. simpl. rewrite Hperm. simpl.
    repeat split; try reflexivity; apply new_events_app; simpl;
      now rewrite <- ?app_assoc.
  - unfold call_service, do_action, run, handleCaptureImage, captureImage. simpl.
    rewrite Hreq. simpl. rewrite Hperm. simpl.
    repeat split; try reflexivity; apply new_events_app; simpl;
      now rewrite <- ?app_assoc.
Qed.

Lemma permission_refused_witness :
  fst (call_service (always refusing) pickImage initial_world) = Rejected library_denied /\
  new_events initial_world (snd (call_service (always refusing) pickImage initial_world))
  = [Called requestMediaLibraryPermissionsAsync;
     Did (console_error "Error picking image:" library_denied)] /\
  screen (do_action None (always refusing) PressUpload initial_world) = screen initial_world /\
  new_events initial_world (do_action None (always refusing) PressUpload initial_world)
  = [Called requestMediaLibraryPermissionsAsync;
     Did (console_error "Error picking image:" library_denied);
     Did (Alert_alert "Error" (message library_denied) [])].
Proof.
  apply (permission_refused None (always refusing) initial_world
           {| permission_status := "denied" |}); [discriminate | reflexivity].
Defined.

(** X5: a picker that was not cancelled yields its first asset, whatever
    else was selected, and the handler selects it; with an empty list of
    assets [pickImage] ([captureImage]) returns [null] and the handler
    leaves the selection alone. *)
Theorem picker_yields_first_asset (cfg : option string) (env : platform) (w : world)
    (result : ImagePickerResult) (chosen : list ImageRef) :
  canceled result = false ->
  assets result = Some chosen ->
  (library_returns env (log w) result ->
   fst (call_service env pickImage w) = Fulfilled (hd_error chosen) /\
   selectedImage (screen (do_action cfg env PressUpload w))
   = match chosen with
     | first :: _ => Some first
     | [] => selectedImage (screen w)
     end) /\
  (camera_returns env (log w) result ->
   fst (call_service env captureImage w) = Fulfilled (hd_error chosen) /\
   selectedImage (screen (do_action cfg env PressCapture w))
   = match chosen with
     | first :: _ => Some first
     | [] => selectedImage (screen w)
     end).
Proof.
  intros Hcancel Hassets.
  split; intros (perm & Hperm & Hgranted & Hpick).
  - unfold call_service, do_action, run, handlePickImage, pickImage. simpl.
    rewrite Hperm. simpl. rewrite Hgranted. simpl.
    rewrite Hpick. simpl. rewrite Hcancel. simpl.
    unfold assets_0. rewrite Hassets. destruct chosen; simpl; auto.
  - unfold call_service, do_action, run, handleCaptureImage, captureImage. simpl.
    rewrite Hperm. simpl. rewrite Hgranted. simpl.
    rewrite Hpick. simpl. rewrite Hcancel. simpl.
    unfold assets_0. rewrite Hassets. destruct chosen; simpl; auto.
Qed.

Lemma picker_yields_first_asset_witness :
  fst (call_service (always (picker {| canceled := false; assets := Some [imgB; imgA] |}))
         pickImage initial_world)
  = Fulfilled (Some imgB) /\
  selectedImage
    (screen (do_action None
               (always (picker {| canceled := false; assets := Some [imgB; imgA] |}))
               PressUpload initial_world))
  = Some imgB.
Proof.
  apply (picker_yields_first_asset None
           (always (picker {| canceled := false; assets := Some [imgB; imgA] |}))
           initial_world {| canceled := false; assets := Some [imgB; imgA] |} [imgB; imgA]);
    try reflexivity.
  exists {| permission_status := "granted" |}. repeat split; reflexivity.
Defined.

Example empty_pick_selects_nothing :
  fst (call_service (always (picker {| canceled := false; assets := Some [] |}))
         captureImage initial_world)
  = Fulfilled None.
Proof. reflexivity. Qed.

(** X6: when the file cannot be read [analyzeImage] rejects with the error
    of the read and sends nothing: the only call is the read, and the error
    is logged by [convertToBase64] and by [analyzeImage]. *)
Theorem unreadable_image_is_not_sent (cfg : option string) (env : platform) (w : world)
    (imageUri : string) (e : js_error) :
  env (log w) (readAsStringAsync imageUri) = Rejected e ->
  fst (call_service env (analyzeImage cfg imageUri) w) = Rejected e /\
  new_events w (snd (call_service env (analyzeImage cfg imageUri) w))
  = [Called (readAsStringAsync imageUri);
     Did (console_error "Error converting to base64:" e);
     Did (console_error "Error analyzing image:" e)].
Proof.
  intro Hread.
  unfold call_service, run, analyzeImage, convertToBase64. simpl.
  rewrite Hread. simpl. split; [reflexivity |].
  apply new_events_app. simpl. now rewrite <- !app_assoc.
Qed.

Lemma unreadable_image_is_not_sent_witness :
  fst (call_service (always (unreadable None)) (analyzeImage None tmp_x) initial_world)
    = Rejected (Error "ENOENT: no such file or directory") /\
  new_events initial_world
    (snd (call_service (always (unreadable None)) (analyzeImage None tmp_x) initial_world))
  = [Called (readAsStringAsync tmp_x);
     Did (console_error "Error converting to base64:"
            (Error "ENOENT: no such file or directory"));
     Did (console_error "Error analyzing image:"
            (Error "ENOENT: no such file or directory"))].
Proof.
  apply (unreadable_image_is_not_sent None (always (unreadable None)) initial_world tmp_x).
  reflexivity.
Defined.



(** X8: [analyzeImage] fails with the transport's own error when the POST
    does not complete, and with the decoding error when the response is
    [ok] but its body is not JSON: a success status alone gives no result. *)
Theorem no_result_without_a_body (cfg : option string) (env : platform) (w : world)
    (imageUri base64Image : string) :
  env (log w) (readAsStringAsync imageUri) = Fulfilled base64Image ->
  (forall e,
     env (log w ++ [Called (readAsStringAsync imageUri)])
         (fetch (analyze_request cfg base64Image)) = Rejected e ->
     fst (call_service env (analyzeImage cfg imageUri) w) = Rejected e) /\
  (forall resp,
     env (log w ++ [Called (readAsStringAsync imageUri)])
         (fetch (analyze_request cfg base64Image)) = Fulfilled resp ->
     ok resp = true -> decoded resp = None ->
     exists msg,
       fst (call_service env (analyzeImage cfg imageUri) w) = Rejected (SyntaxError msg)).
Proof.
  intro Hread. split.
  - intros e Hfetch.
    unfold call_service, run, analyzeImage, convertToBase64. simpl.
    rewrite Hread. simpl. rewrite Hfetch. reflexivity.
  - intros resp Hfetch Hok Hdec.
    unfold call_service, run, analyzeImage, convertToBase64. simpl.
    rewrite Hread. simpl. rewrite Hfetch. simpl.
    rewrite Hok. simpl. unfold Response_json. rewrite Hdec. simpl. eauto.
Qed.

Lemma no_result_without_a_body_witness :
  exists msg,
    fst (call_service (always (device None {| status := 200; decoded := None |}))
           (analyzeImage None tmp_x) initial_world)
    = Rejected (SyntaxError msg).
Proof.
  destruct (no_result_without_a_body None
              (always (device None {| status := 200; decoded := None |}))
              initial_world tmp_x "iVBORw0KGgo=" eq_refl) as [_ H].
  apply (H {| status := 200; decoded := None |}); reflexivity.
Defined.

(** ** The calls of a run *)

Lemma calls_of_app l1 l2 : calls_of (l1 ++ l2) = calls_of l1 ++ calls_of l2.
Proof.
  induction l1 as [| [c | a] l1 IH]; simpl; [reflexivity | now rewrite IH | exact IH].
Qed.

Ltac log_is_extended :=
  eexists; split; [simpl; rewrite <- ?app_assoc; reflexivity | reflexivity].

Lemma checkHealth_calls cfg me env w :
  exists evs,
    log (snd (run me env (checkHealth cfg) w)) = log w ++ evs /\
    calls_of evs = [fetch (health_request cfg)].
Proof.
  unfold run, checkHealth. simpl.
  destruct (env (log w) (fetch (health_request cfg))) as [resp | e]; simpl;
    [| log_is_extended].
  destruct (ok resp); simpl; [| log_is_extended].
  destruct (Response_json resp) as [data | e]; simpl; [| log_is_extended].
  destruct (get_prop data "status") as [st | e]; simpl; log_is_extended.
Qed.

Lemma analyzeImage_calls cfg me env u w :
  exists evs,
    log (snd (run me env (analyzeImage cfg u) w)) = log w ++ evs /\
    calls_of evs =
    readAsStringAsync u ::
    match env (log w) (readAsStringAsync u) with
    | Fulfilled base64Image => [fetch (analyze_request cfg base64Image)]
    | Rejected _ => []
    end.
Proof.
  unfold run, analyzeImage, convertToBase64. simpl.
  destruct (env (log w) (readAsStringAsync u)) as [b64 | e]; simpl;
    [| log_is_extended].
  destruct (env _ (fetch (analyze_request cfg b64))) as [resp | e]; simpl;
    [| log_is_extended].
  destruct (ok resp); simpl.
  - destruct (Response_json resp) as [data | e]; simpl; log_is_extended.
  - destruct (get_prop _ "detail") as [d | e]; simpl; log_is_extended.
Qed.

(** The events [handleAnalyze] adds on a selected image. *)
Lemma handleAnalyze_events cfg env img w :
  let me := Some img in
  let w0 := apply_action me (setAnalysisResult JNull)
              (apply_action me (setIsAnalyzing true) w) in
  let health := run me env (checkHealth cfg) w0 in
  let w1 := apply_action me (setApiAvailable true) (snd health) in
  let analysis := run me env (analyzeImage cfg (uri img)) w1 in
  log (snd (run me env (handleAnalyze cfg me) w)) =
  match fst health with
  | Fulfilled true =>
      match fst analysis with
      | Fulfilled _ => log (snd analysis) ++ [Did (setTimeout (autoDelete img) 5000)]
      | Rejected error =>
          log (snd analysis) ++
          [Did (console_error "Analysis error:" error);
           Did (Alert_alert "Analysis Failed"
                  (or_string (message error) "Failed to analyze image. Please try again.")
                  [OK_button])]
      end
  | _ => log (snd health) ++ [unavailable_alert]
  end.
Proof.
  intros me w0 health w1 analysis.
  pose proof (handleAnalyze_run cfg env img w) as Hrun. cbv zeta in Hrun.
  fold me w0 health w1 analysis in Hrun. rewrite Hrun.
  destruct (fst health) as [[|] | e]; [destruct (fst analysis) as [result | e] | |];
    simpl; rewrite <- ?app_assoc; reflexivity.
Qed.

(** The platform calls of [handleAnalyze] on a selected image. *)
Lemma handleAnalyze_calls (cfg : option string) (env : platform)
    (img : ImageRef) (w : world) :
  let me := Some img in
  let w0 := apply_action me (setAnalysisResult JNull)
              (apply_action me (setIsAnalyzing true) w) in
  let health := run me env (checkHealth cfg) w0 in
  calls_of (new_events w (snd (run me env (handleAnalyze cfg me) w))) =
  fetch (health_request cfg) ::
  match fst health with
  | Fulfilled true =>
      readAsStringAsync (uri img) ::
      match env (log (snd health)) (readAsStringAsync (uri img)) with
      | Fulfilled base64Image => [fetch (analyze_request cfg base64Image)]
      | Rejected _ => []
      end
  | _ => []
  end.
Proof.
  intros me w0 health.
  pose proof (handleAnalyze_events cfg env img w) as Hlog. cbv zeta in Hlog.
  fold me w0 health in Hlog.
  destruct (checkHealth_calls cfg me env w0) as (hs & Hhs & Hhc). fold health in Hhs.
  change (log w0) with (log w) in Hhs.
  destruct (analyzeImage_calls cfg me env (uri img)
              (apply_action me (setApiAvailable true) (snd health)))
    as (els & Hels & Helc).
  change (log (apply_action me (setApiAvailable true) (snd health)))
    with (log (snd health)) in Hels, Helc.
  destruct (fst health) as [[|] | e].
  - destruct (fst (run me env (analyzeImage cfg (uri img)) _)) as [result | e];
      rewrite Hels, Hhs, <- !app_assoc in Hlog;
      rewrite (new_events_app _ _ _ Hlog), !calls_of_app, Hhc, Helc;
      simpl; now rewrite app_nil_r.
  - rewrite Hhs, <- !app_assoc in Hlog.
    now rewrite (new_events_app _ _ _ Hlog), !calls_of_app, Hhc.
  - rewrite Hhs, <- !app_assoc in Hlog.
    now rewrite (new_events_app _ _ _ Hlog), !calls_of_app, Hhc.
Qed.

(** X9: the platform calls of one press of Analyze are, in this order, the
    health GET, then (only if the backend is healthy) the read of the
    selected file, then (only if the read succeeded) the POST of what was
    read; nothing else is called, nothing twice, and nothing at all when no
    image is selected. *)
Theorem analyze_press_call_sequence (cfg : option string) (env : platform) (w : world) :
  calls_of (new_events w (do_action cfg env PressAnalyze w)) =
  match selectedImage (screen w) with
  | None => []
  | Some img =>
      let me := Some img in
      let w0 := apply_action me (setAnalysisResult JNull)
                  (apply_action me (setIsAnalyzing true) w) in
      let health := run me env (checkHealth cfg) w0 in
      fetch (health_request cfg) ::
      match fst health with
      | Fulfilled true =>
          readAsStringAsync (uri img) ::
          match env (log (snd health)) (readAsStringAsync (uri img)) with
          | Fulfilled base64Image => [fetch (analyze_request cfg base64Image)]
          | Rejected _ => []
          end
      | _ => []
      end
  end.
Proof.
  unfold do_action.
  destruct (selectedImage (screen w)) as [img |] eqn:Hsel.
  - apply handleAnalyze_calls.
  - unfold run, handleAnalyze. simpl.
    rewrite (new_events_app w _ [Did (Alert_alert "No Image"
                                        "Please select or capture an image first" [])]);
      reflexivity.
Qed.

Example handleAnalyze_call_sequence_unreadable :
  calls_of (new_events initial_world
              (snd (run (Some imgA) (always (unreadable (Some imgA)))
                      (handleAnalyze None (Some imgA)) initial_world)))
  = [fetch (health_request None); readAsStringAsync (uri imgA)].
Proof. reflexivity. Qed.

(** ** Deletion *)

Lemma emits_only_weaken {A : Type} (P Q : event -> Prop) (p : prog A) :
  (forall e, P e -> Q e) -> emits_only P p -> emits_only Q p.
Proof.
  intro H. induction p as [a | e | a k IH | c k IH]; simpl; auto.
  - intros [Ha Hk]. auto.
  - intros [Hc Hk]. auto.
Qed.

(** A program that spawns nothing adds only its own events. *)
Lemma interp_grows_alone {A : Type} (P : event -> Prop) sp me env (p : prog A) w :
  (forall u, ~ P (Did (spawn_deleteImage u))) ->
  emits_only P p ->
  grows_by P w (snd (interp sp me env p w)).
Proof.
  intros Hno. revert w.
  induction p as [a | e | a k IH | c k IH]; intros w Hp; simpl in *.
  - apply grows_by_refl.
  - apply grows_by_refl.
  - destruct Hp as [Ha Hk].
    eapply grows_by_trans; [| apply IH; exact Hk].
    destruct a; try (apply apply_action_grows; exact Ha).
    now apply Hno in Ha.
  - destruct Hp as [Hc Hk].
    eapply grows_by_trans; [apply grows_by_emit; exact Hc |].
    apply IH, Hk.
Qed.

Lemma handlePickImage_never_deletes : emits_only never_deletes handlePickImage.
Proof. unfold handlePickImage, pickImage. emits; exact I. Qed.

Lemma handleCaptureImage_never_deletes : emits_only never_deletes handleCaptureImage.
Proof. unfold handleCaptureImage, captureImage. emits; exact I. Qed.

Lemma handleAnalyze_never_deletes cfg sel : emits_only never_deletes (handleAnalyze cfg sel).
Proof.
  destruct sel as [img |];
    unfold handleAnalyze, checkHealth, analyzeImage, convertToBase64; emits; exact I.
Qed.

Lemma handleClear_never_deletes sel : emits_only never_deletes (handleClear sel).
Proof. unfold handleClear. emits; exact I. Qed.

(** X10: the four handlers never delete anything themselves: no run of
    theirs calls [deleteImage] or [FileSystem.deleteAsync].  Deletion only
    happens in the two closures, when the timer fires and when Clear is
    confirmed. *)
Theorem handlers_never_delete (cfg : option string) (env : platform) (w : world)
    (me sel : option ImageRef) :
  Forall never_deletes (new_events w (snd (run me env handlePickImage w))) /\
  Forall never_deletes (new_events w (snd (run me env handleCaptureImage w))) /\
  Forall never_deletes (new_events w (snd (run me env (handleAnalyze cfg sel) w))) /\
  Forall never_deletes (new_events w (snd (run me env (handleClear sel) w))).
Proof.
  assert (H : forall p : prog unit,
             emits_only never_deletes p ->
             Forall never_deletes (new_events w (snd (run me env p w)))).
  { intros p Hp. apply (new_events_grows never_deletes).
    apply interp_grows_alone; [intros u Hu; exact Hu | exact Hp]. }
  split; [apply H, handlePickImage_never_deletes |].
  split; [apply H, handleCaptureImage_never_deletes |].
  split; [apply H, handleAnalyze_never_deletes |].
  apply H, handleClear_never_deletes.
Qed.

Lemma grows_by_Forall (P : event -> Prop) w w' :
  grows_by P w w' -> Forall P (log w) -> Forall P (log w').
Proof. intros (evs & -> & Hevs) Hw. apply Forall_app. auto. Qed.

Lemma deleteImage_local u : emits_only deletes_local_only (deleteImage u).
Proof.
  unfold deleteImage.
  destruct (truthy_string u && String.prefix "file://" u) eqn:Hu.
  - apply andb_prop in Hu. destruct Hu as [_ Hu]. emits; exact I.
  - emits; exact I.
Qed.

Lemma closure_body_local cb : emits_only deletes_local_only (closure_body cb).
Proof. destruct cb as [img | [img |]]; simpl; auto. Qed.

Lemma never_deletes_local e : never_deletes e -> deletes_local_only e.
Proof. destruct e as [[] | a]; simpl; auto; contradiction. Qed.

Lemma run_local me env (p : prog unit) w :
  emits_only deletes_local_only p ->
  grows_by deletes_local_only w (snd (run me env p w)).
Proof.
  intro Hp. unfold run. apply interp_grows; [| exact Hp].
  intros u w1. apply interp_grows; [intros; apply grows_by_refl | apply deleteImage_local].
Qed.

Lemma do_action_local cfg env a w :
  grows_by deletes_local_only w (do_action cfg env a w).
Proof.
  destruct a as [| | | | label | cb]; unfold do_action.
  - apply run_local, (emits_only_weaken never_deletes);
      [exact never_deletes_local | exact handlePickImage_never_deletes].
  - apply run_local, (emits_only_weaken never_deletes);
      [exact never_deletes_local | exact handleCaptureImage_never_deletes].
  - apply run_local, (emits_only_weaken never_deletes);
      [exact never_deletes_local | apply handleAnalyze_never_deletes].
  - apply run_local, (emits_only_weaken never_deletes);
      [exact never_deletes_local | apply handleClear_never_deletes].
  - unfold press_alert_button.
    destruct (find _ _) as [b |]; [| apply grows_by_refl].
    destruct (onPress b) as [cb |]; [| apply grows_by_refl].
    apply run_local, closure_body_local.
  - apply run_local, closure_body_local.
Qed.

Lemma advance_grows {A : Type} (P : event -> Prop) sp me (p : prog A) w :
  (forall u w1, grows_by P w1 (fst (sp u w1))) ->
  emits_only P p ->
  grows_by P w (snd (fst (advance sp me p w))).
Proof.
  intro Hsp. revert w.
  induction p as [a | e | a k IH | c k IH]; intros w Hp; simpl in *;
    try apply grows_by_refl.
  destruct Hp as [Ha Hk].
  pose proof (apply_action_grows P me a w Ha) as Hg.
  destruct (match a with
            | spawn_deleteImage u => sp u (apply_action me a w)
            | _ => (apply_action me a w, [])
            end) as [w2 ts] eqn:E.
  assert (Hg2 : grows_by P w w2).
  { destruct a; try (inversion E; subst; exact Hg).
    eapply grows_by_trans; [exact Hg |].
    specialize (Hsp u (apply_action me (spawn_deleteImage u) w)). now rewrite E in Hsp. }
  specialize (IH w2 Hk).
  destruct (advance sp me k w2) as [[p' w3] ts']. simpl in *.
  eapply grows_by_trans; eauto.
Qed.

Lemma issue_grows {A : Type} (P : event -> Prop) (p : prog A) w :
  emits_only P p -> grows_by P w (issue p w).
Proof.
  destruct p; simpl; try (intros; apply grows_by_refl).
  intros [Hc _]. now apply grows_by_emit.
Qed.

Lemma spawn_task_local u w :
  grows_by deletes_local_only w (fst (spawn_task u w)) /\
  Forall (fun t => emits_only deletes_local_only (code t)) (snd (spawn_task u w)).
Proof.
  unfold spawn_task.
  pose proof (advance_grows deletes_local_only (fun _ w2 => (w2, [])) None
                (deleteImage u) w (fun _ _ => grows_by_refl _ _) (deleteImage_local u))
    as Hg.
  pose proof (advance_emits deletes_local_only (fun _ w2 => (w2, [])) None
                (deleteImage u) w (fun _ _ => Forall_nil _) (deleteImage_local u))
    as [Hp _].
  destruct (advance _ None (deleteImage u) w) as [[p w1] ts]. simpl in *.
  split.
  - eapply grows_by_trans; [exact Hg | now apply issue_grows].
  - now apply suspended_emits.
Qed.

Lemma advance_local me (p : prog unit) w :
  emits_only deletes_local_only p ->
  grows_by deletes_local_only w
    (issue (fst (fst (advance spawn_task me p w))) (snd (fst (advance spawn_task me p w)))) /\
  Forall (fun t => emits_only deletes_local_only (code t))
    (suspended me (fst (fst (advance spawn_task me p w)))) /\
  Forall (fun t => emits_only deletes_local_only (code t))
    (snd (advance spawn_task me p w)).
Proof.
  intro Hp.
  pose proof (advance_grows deletes_local_only spawn_task me p w
                (fun u w1 => proj1 (spawn_task_local u w1)) Hp) as Hg.
  pose proof (advance_emits deletes_local_only spawn_task me p w
                (fun u w1 => proj2 (spawn_task_local u w1)) Hp) as [Hp' Hts].
  split; [| split].
  - eapply grows_by_trans; [exact Hg | now apply issue_grows].
  - now apply suspended_emits.
  - exact Hts.
Qed.

Lemma schedule_local me p others c :
  deleting_locally c ->
  emits_only deletes_local_only p ->
  Forall (fun t => emits_only deletes_local_only (code t)) others ->
  deleting_locally (schedule me p others c).
Proof.
  intros (Hlog & _ & Hd) Hp Ho. unfold schedule.
  destruct (advance_local me p (now c) Hp) as (Hg & Hs & Hts).
  destruct (advance spawn_task me p (now c)) as [[p' w'] ts]. simpl in *.
  split; [| split]; simpl.
  - exact (grows_by_Forall _ _ _ Hg Hlog).
  - apply Forall_app. auto.
  - apply Forall_app. auto.
Qed.

Lemma schedule_dropped_local me p others c :
  deleting_locally c ->
  emits_only deletes_local_only p ->
  Forall (fun t => emits_only deletes_local_only (code t)) others ->
  deleting_locally (schedule_dropped me p others c).
Proof.
  intros (Hlog & Hh & _) Hp Ho. unfold schedule_dropped.
  destruct (advance_local me p (now c) Hp) as (Hg & Hs & Hts).
  destruct (advance spawn_task me p (now c)) as [[p' w'] ts]. simpl in *.
  split; [| split]; simpl.
  - exact (grows_by_Forall _ _ _ Hg Hlog).
  - exact Hh.
  - apply Forall_app. split; [exact Ho |]. apply Forall_app. auto.
Qed.

Lemma Forall_middle {A : Type} (P : A -> Prop) before t after :
  Forall P (before ++ t :: after) -> P t /\ Forall P (before ++ after).
Proof.
  intro H. apply Forall_app in H. destruct H as [Hb Ha].
  inversion Ha; subst. split; [assumption |]. apply Forall_app. auto.
Qed.

Lemma step_local ready cfg c c' :
  deleting_locally c -> step ready cfg c c' -> deleting_locally c'.
Proof.
  intros Hc Hstep. pose proof Hc as (Hlog & Hh & Hd).
  destruct Hstep as [c _ _ | c _ _ | c img _ _ _ | c img _ _ _
                    | c title msg buttons b cb _ _ _ _ | c cb ms _ _
                    | c before sel call k after r Hc'
                    | c before sel call k after r Hc'].
  - apply schedule_local; auto.
    apply (emits_only_weaken never_deletes);
      [exact never_deletes_local | exact handlePickImage_never_deletes].
  - apply schedule_local; auto.
    apply (emits_only_weaken never_deletes);
      [exact never_deletes_local | exact handleCaptureImage_never_deletes].
  - apply schedule_local; auto.
    apply (emits_only_weaken never_deletes);
      [exact never_deletes_local | apply handleAnalyze_never_deletes].
  - apply schedule_local; auto.
    apply (emits_only_weaken never_deletes);
      [exact never_deletes_local | apply handleClear_never_deletes].
  - apply schedule_local; auto. apply closure_body_local.
  - apply schedule_local; auto. apply closure_body_local.
  - rewrite Hc' in Hh. apply Forall_middle in Hh. destruct Hh as [[_ Hk] Ho].
    apply schedule_local; [exact Hc | apply Hk | exact Ho].
  - rewrite Hc' in Hd. apply Forall_middle in Hd. destruct Hd as [[_ Hk] Ho].
    apply schedule_dropped_local; [exact Hc | apply Hk | exact Ho].
Qed.

(** X11: whatever the user and the platform do, and however the handlers
    interleave, the only files the screen ever asks the file system to
    delete are [file://] URIs. *)
Theorem only_local_files_are_deleted (cfg : option string) :
  (forall env acts, Forall deletes_local_only (log (session cfg env acts initial_world))) /\
  (forall c, reachable anytime cfg c -> Forall deletes_local_only (log (now c))).
Proof.
  split.
  - intros env acts.
    assert (H : forall w, Forall deletes_local_only (log w) ->
                          Forall deletes_local_only (log (session cfg env acts w))).
    { induction acts as [| a acts IH]; intros w Hw; simpl; [exact Hw |].
      apply IH. exact (grows_by_Forall _ _ _ (do_action_local cfg env a w) Hw). }
    apply H. constructor.
  - intros c Hc.
    assert (H : deleting_locally c).
    { induction Hc as [| c c' _ IH Hstep].
      - repeat split; constructor.
      - exact (step_local anytime cfg c c' IH Hstep). }
    apply H.
Qed.

Example remote_image_is_not_deleted :
  let remote := {| uri := "https://example.com/x.jpg"; width := None; height := None;
                   mimeType := None |} in
  log (run_closure (always (device None healthy)) (clearPressed (Some remote)) initial_world)
  = [Did (spawn_deleteImage "https://example.com/x.jpg")].
Proof. reflexivity. Qed.

(** ** The screen between user actions *)

(** The screen a pick handler leaves. *)
Lemma run_pick_handler_screen me env (service : prog (option ImageRef)) title fallback w :
  emits_only no_setter service ->
  screen (snd (run me env
                 (try_catch
                    (image <- service ;;
                     match image with
                     | Some img =>
                         act (setSelectedImage (Some img)) ;;
                         act (setAnalysisResult JNull)
                     | None => Ret tt
                     end)
                    (fun error =>
                       act (Alert_alert title (or_string (message error) fallback) [])))
                 w)) =
  match fst (run me env service w) with
  | Fulfilled (Some img) =>
      {| selectedImage := Some img; isAnalyzing := isAnalyzing (screen w);
         analysisResult := JNull; apiAvailable := apiAvailable (screen w) |}
  | _ => screen w
  end.
Proof.
  intro Hs.
  destruct (run_frame me env service w Hs) as [Hscreen _].
  unfold run in *. rewrite interp_try_catch, interp_bind.
  match goal with
  | |- context [interp ?sp me env service w] =>
      destruct (interp sp me env service w) as [[[img |] | e] w1]
  end; simpl in *; rewrite ?Hscreen; reflexivity.
Qed.

Lemma run_closure_at_rest env cb w :
  at_rest (screen w) -> at_rest (screen (run_closure env cb w)).
Proof.
  intros [H1 H2]. destruct cb as [img | sel].
  - unfold run_closure.
    destruct (run_frame (captured (autoDelete img)) env (closure_body (autoDelete img)) w)
      as [Hs _]; [simpl; auto |].
    rewrite Hs. now split.
  - unfold run_closure, run, closure_body.
    destruct sel as [img |]; simpl.
    + destruct (spawned_frame env (uri img) (emit (Did (spawn_deleteImage (uri img))) w))
        as [Hs _].
      rewrite Hs. simpl. now split.
    + now split.
Qed.

Lemma do_action_at_rest cfg env a w :
  at_rest (screen w) -> at_rest (screen (do_action cfg env a w)).
Proof.
  intros [H1 H2]. destruct a as [| | | | label | cb]; unfold do_action.
  - unfold handlePickImage. rewrite run_pick_handler_screen by exact pickImage_emits.
    destruct (fst (run _ env pickImage w)) as [[img |] | e]; split; simpl; auto;
      discriminate.
  - unfold handleCaptureImage.
    rewrite run_pick_handler_screen by exact captureImage_emits.
    destruct (fst (run _ env captureImage w)) as [[img |] | e]; split; simpl; auto;
      discriminate.
  - destruct (selectedImage (screen w)) as [img |] eqn:Hsel.
    + pose proof (handleAnalyze_screen cfg env img w) as H. cbv zeta in H. rewrite H.
      destruct (fst (run _ env (checkHealth cfg) _)) as [[|] | e];
        [destruct (fst (run _ env (analyzeImage cfg (uri img)) _)) as [r | e] | |];
        split; simpl; auto; rewrite Hsel; discriminate.
    + split; simpl; auto.
  - split; simpl; auto.
  - unfold press_alert_button.
    destruct (find _ _) as [b |]; [| now split].
    destruct (onPress b) as [cb |]; [| now split].
    apply run_closure_at_rest. now split.
  - apply run_closure_at_rest. now split.
Qed.

(** X12: handled one at a time, the user's actions always leave the screen at
    rest: the spinner is off, so Analyze and Clear are enabled again, and a
    result is held only while an image is selected. *)
Theorem sessions_end_at_rest (cfg : option string) (env : platform)
    (acts : list user_action) :
  at_rest (screen (session cfg env acts initial_world)).
Proof.
  assert (H : forall w, at_rest (screen w) -> at_rest (screen (session cfg env acts w))).
  { induction acts as [| a acts IH]; intros w Hw; simpl; [exact Hw |].
    apply IH. now apply do_action_at_rest. }
  apply H. split; reflexivity.
Qed.

(** X13: until Clear is confirmed nothing is deleted and nothing changes: the
    Clear button only shows the alert, and the alert's Cancel does nothing
    at all. *)
Theorem clear_then_cancel (cfg : option string) (env : platform) (w : world) :
  let w1 := do_action cfg env PressClear w in
  let w2 := do_action cfg env (PressAlertButton "Cancel") w1 in
  screen w1 = screen w /\
  new_events w w1 = [clear_alert (selectedImage (screen w))] /\
  w2 = w1.
Proof.
  cbv zeta. unfold do_action at 2. unfold run, handleClear. simpl.
  split; [reflexivity |]. split.
  - now apply new_events_app.
  - unfold do_action, press_alert_button. simpl log.
    now rewrite last_alert_snoc.
Qed.

(** X14: when the timer fires, the file of the analysed image is deleted but
    the image stays selected and the state is untouched; a later press of
    Analyze, with the backend healthy, reads that same file again. *)
Theorem deleted_image_stays_selected (cfg : option string) (env : platform)
    (img : ImageRef) (w : world) :
  selectedImage (screen w) = Some img ->
  String.prefix "file://" (uri img) = true ->
  let w1 := do_action cfg env (TimerFires (autoDelete img)) w in
  let w2 := do_action cfg env PressAnalyze w1 in
  fst (run (Some img) env (checkHealth cfg)
         (apply_action (Some img) (setAnalysisResult JNull)
            (apply_action (Some img) (setIsAnalyzing true) w1)))
    = Fulfilled true ->
  screen w1 = screen w /\
  (exists rest,
     new_events w w1
     = Did (spawn_deleteImage (uri img)) :: Called (deleteAsync (uri img)) :: rest) /\
  (exists rest,
     calls_of (new_events w1 w2)
     = fetch (health_request cfg) :: readAsStringAsync (uri img) :: rest).
Proof.
  intros Hsel Hlocal w1 w2 Hhealth.
  assert (Huri : truthy_string (uri img) = true)
    by (destruct (uri img); [discriminate | reflexivity]).
  assert (H1 : screen w1 = screen w).
  { subst w1. unfold do_action, run_closure.
    apply run_frame. simpl. auto. }
  split; [exact H1 |]. split.
  - subst w1. unfold do_action, run_closure, run, closure_body.
    cbn [act interp snd]. unfold deleteImage. rewrite Huri, Hlocal. simpl.
    destruct (env _ (deleteAsync (uri img))) as [[] | e]; simpl;
      eexists; apply new_events_app; simpl; rewrite <- ?app_assoc; reflexivity.
  - subst w2. unfold do_action at 1. rewrite H1, Hsel.
    pose proof (handleAnalyze_calls cfg env img w1) as Hcalls. cbv zeta in Hcalls.
    rewrite Hcalls, Hhealth. eauto.
Qed.

Lemma deleted_image_stays_selected_witness :
  let env := always (backend (Some imgA) {| status := 200; decoded := Some verdict |}) in
  let w1 := do_action None env (TimerFires (autoDelete imgA)) (picked_world imgA) in
  let w2 := do_action None env PressAnalyze w1 in
  screen w1 = screen (picked_world imgA) /\
  (exists rest,
     new_events (picked_world imgA) w1
     = Did (spawn_deleteImage (uri imgA)) :: Called (deleteAsync (uri imgA)) :: rest) /\
  (exists rest,
     calls_of (new_events w1 w2)
     = fetch (health_request None) :: readAsStringAsync (uri imgA) :: rest).
Proof.
  apply (deleted_image_stays_selected None
           (always (backend (Some imgA) {| status := 200; decoded := Some verdict |}))
           imgA (picked_world imgA)); reflexivity.
Defined.

(** ** The render *)

(** X15: [getResultColor] and [getResultIcon], written apart, always agree:
    the shield comes with the safe colour, the circle with the emergency
    colour, the triangle with the warning colour, and where one throws the
    other throws the same error. *)
Theorem icon_and_colour_agree (result : json) :
  getResultColor result
  = and_then (getResultIcon result) (fun ResultIcon => Fulfilled (colour_of ResultIcon)).
Proof.
  unfold getResultColor, getResultIcon.
  destruct (get_prop result "verification_result") as [vr | e]; simpl; [| reflexivity].
  destruct (js_includes vr green_marker) as [[|] | e]; simpl; try reflexivity.
  destruct (js_includes vr red_marker) as [[|] | e]; reflexivity.
Qed.

(** X16: for a result whose [verification_result] is a string,
    [getResultIcon] and [getResultColor] take the green marker first, then
    the red one, and else give the warning; and whenever the screen puts the
    results block in what it returns, the Need Help? card is in it exactly
    when the red marker occurs.  So a text with both markers gets the safe
    card and the help card. *)
Theorem markers_decide_the_cards (s : ui_state) (vr : string) (view : screen_view) :
  get_prop (analysisResult s) "verification_result" = Fulfilled (Some (JStr vr)) ->
  render s = Fulfilled view ->
  getResultIcon (analysisResult s) = Fulfilled (fst (card_for vr)) /\
  getResultColor (analysisResult s) = Fulfilled (snd (card_for vr)) /\
  match view with
  | ImagePreview _ _ _ _ (Some shown) =>
      result_prop shown = analysisResult s /\
      need_help shown = includes red_marker vr
  | _ => True
  end.
Proof.
  intros Hvr Hview.
  split; [| split].
  - unfold getResultIcon, card_for. rewrite Hvr. simpl.
    destruct (includes green_marker vr); simpl; [reflexivity |].
    destruct (includes red_marker vr); reflexivity.
  - unfold getResultColor, card_for. rewrite Hvr. simpl.
    destruct (includes green_marker vr); simpl; [reflexivity |].
    destruct (includes red_marker vr); reflexivity.
  - unfold render in Hview.
    destruct (selectedImage s) as [img |]; [| now inversion Hview].
    destruct (truthy (Some (analysisResult s)) && negb (isAnalyzing s));
      [| now inversion Hview].
    rewrite Hvr in Hview. simpl in Hview. inversion Hview. simpl. now split.
Qed.

Lemma markers_decide_the_cards_witness :
  let both := report "🟢 LIKELY AUTHENTIC 🔴" in
  let s := {| selectedImage := Some imgA; isAnalyzing := false;
              analysisResult := both; apiAvailable := true |} in
  let shown := {| result_prop := both; need_help := true |} in
  render s = Fulfilled (ImagePreview (uri imgA) false false false (Some shown)) /\
  getResultIcon both = Fulfilled Shield /\
  getResultColor both = Fulfilled safe /\
  result_prop shown = both /\
  need_help shown = includes red_marker "🟢 LIKELY AUTHENTIC 🔴".
Proof.
  split; [reflexivity |].
  apply (markers_decide_the_cards
           {| selectedImage := Some imgA; isAnalyzing := false;
              analysisResult := report "🟢 LIKELY AUTHENTIC 🔴";
              apiAvailable := true |}
           "🟢 LIKELY AUTHENTIC 🔴"
           (ImagePreview (uri imgA) false false false
              (Some {| result_prop := report "🟢 LIKELY AUTHENTIC 🔴";
                       need_help := true |})));
    reflexivity.
Defined.

(** X17: [analyzeImage] validates nothing, and the render pays for it: when
    the backend is healthy and the analysis returns a truthy body whose
    [verification_result] is neither a string nor an array, the press of
    Analyze leaves a state whose render throws a [TypeError]. *)
Theorem unvalidated_body_breaks_the_render (cfg : option string) (env : platform)
    (img : ImageRef) (w : world) (result : json) (vr : jsval) :
  selectedImage (screen w) = Some img ->
  let me := Some img in
  let w0 := apply_action me (setAnalysisResult JNull)
              (apply_action me (setIsAnalyzing true) w) in
  let health := run me env (checkHealth cfg) w0 in
  let w1 := apply_action me (setApiAvailable true) (snd health) in
  fst health = Fulfilled true ->
  fst (run me env (analyzeImage cfg (uri img)) w1) = Fulfilled result ->
  truthy (Some result) = true ->
  get_prop result "verification_result" = Fulfilled vr ->
  (forall words, vr <> Some (JStr words)) ->
  (forall items, vr <> Some (JArr items)) ->
  exists msg, render (screen (do_action cfg env PressAnalyze w)) = Rejected (TypeError msg).
Proof.
  intros Hsel me w0 health w1 Hhealth Hanalysis Htruthy Hvr Hstr Harr.
  unfold do_action. rewrite Hsel.
  pose proof (handleAnalyze_screen cfg env img w) as Hscreen. cbv zeta in Hscreen.
  fold me w0 health w1 in Hscreen. rewrite Hhealth, Hanalysis in Hscreen.
  fold me. rewrite Hscreen.
  unfold render, analyzed. cbn [selectedImage analysisResult isAnalyzing].
  rewrite Hsel, Htruthy, Hvr. simpl.
  destruct vr as [[| b | n | words | items | fields] |]; simpl; eauto.
  all: try (exfalso; eapply Hstr; reflexivity).
  all: try (exfalso; eapply Harr; reflexivity).
  all: unfold cannot_read; eauto.
Qed.

Lemma unvalidated_body_breaks_the_render_witness :
  exists msg,
    render (screen (do_action None
                      (always (backend (Some imgA) {| status := 200; decoded := Some (JObj []) |}))
                      PressAnalyze (picked_world imgA)))
    = Rejected (TypeError msg).
Proof.
  apply (unvalidated_body_breaks_the_render None
           (always (backend (Some imgA) {| status := 200; decoded := Some (JObj []) |}))
           imgA (picked_world imgA) (JObj []) undefined);
    try reflexivity; discriminate.
Defined.

(** X18: the outcome of the health check reaches the user through the alert
    alone: [apiAvailable] is written by [handleAnalyze] and read by no
    render, so setting it changes nothing on the screen. *)
Theorem apiAvailable_is_never_shown (me : option ImageRef) (available : bool) (w : world) :
  render (screen (apply_action me (setApiAvailable available) w)) = render (screen w).
Proof.
  destruct w as [s l sf]. destruct s. reflexivity.
Qed.
